(** * gladius-guardian: the process supervisor of package [guardian]

    A shallow embedding of [guardian/guardian.go] (module [Guardian]) and of
    the earlier snapshot of the same file (module [Part000]), with the
    properties of the natural-language specification stated over them.

    Conventions.
    - A Go map is a [gmap]; [map[string]*T] whose nil values are observable
      (the process table [services]) is a [gmap string (option T)].
    - A [for k := range m] loop takes the order in which Go hands out the
      keys as an argument [order]; [range_order m order] says that [order]
      is one of the orders Go may choose.
    - Calls that leave the program (logrus, the OS, websockets) are recorded
      as a list of [Event]s, oldest first; what the outside answers is an
      argument (the oracles [kill] and [SpawnOracle]).
    - A run-time panic (nil dereference) is the outer [None] of an [option].
    - The mutex is not modelled: every operation runs to completion. *)

From Stdlib Require Import ZArith String List Lia.
From stdpp Require Import base option list gmap strings pretty.

Local Open Scope Z_scope.

(** ** The parts of the Go libraries the package relies on *)

Module os.
Record Process := { Pid : Z }.

(** What [Wait] learns about a finished child: it called exit, or it was
    terminated by a signal (the signal's name as [Signal.String] prints
    it, e.g. [killed]). *)
Inductive ProcessState :=
| ExitStatus (code : Z)
| Signaled (sig : string).

(** [ProcessState.Exited]: true if the program exited by calling exit,
    false if it was terminated by a signal. *)
Definition Exited (ps : ProcessState) : bool :=
  match ps with
  | ExitStatus _ => true
  | Signaled _ => false
  end.

Definition Success (ps : ProcessState) : bool :=
  match ps with
  | ExitStatus c => c =? 0
  | Signaled _ => false
  end.

(** [ProcessState.String]. *)
Definition String (ps : ProcessState) : string :=
  match ps with
  | ExitStatus c => "exit status " +:+ pretty c
  | Signaled sig => "signal: " +:+ sig
  end.
End os.

Module exec.
Record Cmd := {
  Path : string;
  Env : list string;
  Process : option os.Process;
  ProcessState : option os.ProcessState
}.

(** [Path] is the name as given, which is what Go stores for a name with
    a path separator. For a bare name Go stores what [LookPath] finds;
    that resolution depends on the file system and is not modelled, so
    [Path] stands for the location only up to it. *)
Definition Command (name : string) : Cmd :=
  {| Path := name; Env := []; Process := None; ProcessState := None |}.

(** The error [Cmd.Wait] returns: nil on exit status 0, otherwise an
    [ExitError] whose text is that of the process state. *)
Definition WaitError (ps : os.ProcessState) : option string :=
  if os.Success ps then None else Some (os.String ps).
End exec.

(** [strings.Join]. *)
Definition Join (elems : list string) (sep : string) : string :=
  String.concat sep elems.

(** The configuration source (viper): the two keys the package reads. *)
Record Config := {
  DefaultEnvironment : list string;
  MaxLogLines : Z
}.

(** A websocket connection handle. *)
Definition Conn := nat.

(** An error value: a plain error, or the [*multierror.Error] of a bulk
    operation with the texts of the errors appended to it. *)
Inductive error :=
| errorString (msg : string)
| multiError (errs : list string).

Inductive Event :=
| EvLog (level msg : string) (fields : list (string * string))
| EvLogError (level msg : string) (err : error)
| EvStart (path : string) (env : list string)
| EvSleep (d : Z)
| EvKill (pid : Z)
| EvWriteMessage (conn : Conn) (text : string)
| EvPrintln (text : string).

(** What the operating system answers during one [spawnProcess]. *)
Record SpawnOracle := {
  stdoutPipe : option string;            (* error of p.StdoutPipe() *)
  stderrPipe : option string;            (* error of p.StderrPipe() *)
  start : string + Z;                    (* error of p.Start(), or the pid *)
  graceFate : option os.ProcessState     (* set iff p.Wait() has concluded
                                            when the sleep ends *)
}.

(** [ErrorOrNil] of [multierror.Error] on a result built by [multierror.Append]
    from nil: nil exactly when nothing was appended. *)
Definition ErrorOrNil (result : list string) : option error :=
  match result with
  | [] => None
  | _ :: _ => Some (multiError result)
  end.

(** The texts aggregated in a returned error. *)
Definition aggregated (e : option error) : list string :=
  match e with
  | Some (multiError errs) => errs
  | Some (errorString _) | None => []
  end.

(** [name == "all" || name == ""] *)
Definition isAll (name : string) : bool :=
  String.eqb name "all" || String.eqb name "".

(** The key orders a [range] over [m] may produce. *)
Definition range_order {V} (m : gmap string V) (order : list string) : Prop :=
  order ≡ₚ (map_to_list m).*1.

(** ** The bounded log buffer *)

(** Modelled from the spec: type [FixedSizeLog] with [NewFixedSizeLog] and
    [Append] is declared in another file of package [guardian]; section 4.1
    gives its contract: capacity fixed at creation, a non-positive capacity
    fails at creation, [append] discards the oldest entry first when the
    buffer already holds [N] entries, [snapshot] returns the lines oldest
    first. *)
Module FixedSizeLog.
Record t := { capacity : Z; lines : list string }.

Definition New (n : Z) : option t :=
  if n <=? 0 then None else Some {| capacity := n; lines := [] |}.

Definition Append (b : t) (line : string) : t :=
  if Z.of_nat (length (lines b)) =? capacity b
  then {| capacity := capacity b; lines := tail (lines b) ++ [line] |}
  else {| capacity := capacity b; lines := lines b ++ [line] |}.

Definition Snapshot (b : t) : list string := lines b.

Definition AppendAll (b : t) (ls : list string) : t := foldl Append b ls.
End FixedSizeLog.

(** The last [n] elements of a list. *)
Definition lastLines (n : nat) (l : list string) : list string :=
  drop (length l - n) l.

(** ** Types shared by both snapshots of guardian.go *)

Module serviceSettings.
Record t := { env : list string; execName : string }.
End serviceSettings.

Module serviceStatus.
Record t := {
  Running : bool;
  PID : Z;
  Env : list string;
  Location : string
}.
End serviceStatus.

(** ** guardian/guardian.go *)

Module Guardian.

Record GladiusGuardian := {
  spawnTimeout : option Z;
  registeredServices : gmap string serviceSettings.t;
  services : gmap string (option exec.Cmd);
  serviceLogs : gmap string FixedSizeLog.t;
  serviceWebSockets : gmap string (list Conn)
}.

Definition New : GladiusGuardian :=
  {| spawnTimeout := None;
     registeredServices := ∅;
     services := ∅;
     serviceLogs := ∅;
     serviceWebSockets := ∅ |}.

(** [gg.services[name]]: a missing key reads as nil. *)
Definition service (gg : GladiusGuardian) (name : string) : option exec.Cmd :=
  mjoin (services gg !! name).

Definition set_services (gg : GladiusGuardian)
    (s : gmap string (option exec.Cmd)) : GladiusGuardian :=
  {| spawnTimeout := spawnTimeout gg;
     registeredServices := registeredServices gg;
     services := s;
     serviceLogs := serviceLogs gg;
     serviceWebSockets := serviceWebSockets gg |}.

Definition newServiceStatus (p : option exec.Cmd) : option serviceStatus.t :=
  match p with
  | Some c =>
      proc ← exec.Process c;
      Some {| serviceStatus.Running := true;
              serviceStatus.PID := os.Pid proc;
              serviceStatus.Env := exec.Env c;
              serviceStatus.Location := exec.Path c |}
  | None =>
      Some {| serviceStatus.Running := false;
              serviceStatus.PID := 0;
              serviceStatus.Env := [];
              serviceStatus.Location := "" |}
  end.

Definition RegisterService (gg : GladiusGuardian) (name execLocation : string)
    (env : list string) : GladiusGuardian * list Event :=
  ({| spawnTimeout := spawnTimeout gg;
      registeredServices :=
        <[name := {| serviceSettings.env := env;
                     serviceSettings.execName := execLocation |}]>
          (registeredServices gg);
      services := <[name := None]> (services gg);
      serviceLogs := serviceLogs gg;
      serviceWebSockets := <[name := []]> (serviceWebSockets gg) |},
   [EvLog "debug" "Registered new service"
      [("service_name", name); ("exec_location", execLocation);
       ("environment_vars", Join env ", ")]]).

Definition updateWebsocketLog (gg : GladiusGuardian)
    (serviceName logLine : string) : list Event :=
  (λ conn, EvWriteMessage conn logLine)
    <$> default [] (serviceWebSockets gg !! serviceName).

Definition SetTimeout (gg : GladiusGuardian) (t : option Z) : GladiusGuardian :=
  {| spawnTimeout := t;
     registeredServices := registeredServices gg;
     services := services gg;
     serviceLogs := serviceLogs gg;
     serviceWebSockets := serviceWebSockets gg |}.

Fixpoint statusLoop (gg : GladiusGuardian) (order : list string)
    (acc : gmap string serviceStatus.t) : option (gmap string serviceStatus.t) :=
  match order with
  | [] => Some acc
  | serviceName :: rest =>
      st ← newServiceStatus (service gg serviceName);
      statusLoop gg rest (<[serviceName := st]> acc)
  end.

(** [order]: the key order of the [range gg.services] loop. *)
Definition GetServicesStatus (gg : GladiusGuardian) (name : string)
    (order : list string) : option (gmap string serviceStatus.t) :=
  if isAll name then statusLoop gg order ∅
  else
    st ← newServiceStatus (service gg name);
    Some (<[name := st]> ∅).

Definition checkTimeout (gg : GladiusGuardian) : option string :=
  match spawnTimeout gg with
  | None =>
      Some "spawn timeout not set, please set it before a process is spawned"
  | Some _ => None
  end.

Definition AddLogClient (gg : GladiusGuardian) (serviceName : string)
    (upgrade : string + Conn) : GladiusGuardian * list Event :=
  match upgrade with
  | inl err => (gg, [EvLog "warning" err []])
  | inr conn =>
      ({| spawnTimeout := spawnTimeout gg;
          registeredServices := registeredServices gg;
          services := services gg;
          serviceLogs := serviceLogs gg;
          serviceWebSockets :=
            <[serviceName :=
                default [] (serviceWebSockets gg !! serviceName) ++ [conn]]>
              (serviceWebSockets gg) |}, [])
  end.

Section WithEnvironment.
(** The configuration source, and the answer of the OS to
    [Process.Kill] on a pid (nil, or the error's text). *)
Variable cfg : Config.
Variable kill : Z → option string.

Definition AppendToLog (gg : GladiusGuardian) (serviceName line : string)
    : option (GladiusGuardian * list Event) :=
  log ← match serviceLogs gg !! serviceName with
        | None => FixedSizeLog.New (MaxLogLines cfg)
        | Some l => Some l
        end;
  let gg' :=
    {| spawnTimeout := spawnTimeout gg;
       registeredServices := registeredServices gg;
       services := services gg;
       serviceLogs :=
         <[serviceName := FixedSizeLog.Append log line]> (serviceLogs gg);
       serviceWebSockets := serviceWebSockets gg |} in
  Some (gg', updateWebsocketLog gg' serviceName line).

Definition stopServiceInternal (gg : GladiusGuardian) (name : string)
    : option (option string * list Event) :=
  match registeredServices gg !! name with
  | None => Some (Some "attempted to stop unregistered service", [])
  | Some serviceSettings =>
      match service gg name with
      | None => Some (Some "service is not running so can not stop", [])
      | Some service =>
          proc ← exec.Process service;
          match kill (os.Pid proc) with
          | Some err =>
              Some (Some ("couldn't kill service, error was: " +:+ err),
                    [EvKill (os.Pid proc);
                     EvLog "warning" "Couldn't kill service"
                       [("service_name", name);
                        ("exec_location",
                         serviceSettings.execName serviceSettings);
                        ("environment_vars",
                         Join (serviceSettings.env serviceSettings) ", ");
                        ("err", err)]])
          | None => Some (None, [EvKill (os.Pid proc)])
          end
      end
  end.

Fixpoint stopLoop (gg : GladiusGuardian) (order : list string)
    (result : list string) : option (list string * list Event) :=
  match order with
  | [] => Some (result, [])
  | sName :: rest =>
      '(err, evs) ← stopServiceInternal gg sName;
      let result' :=
        match err with
        | Some e =>
            result ++ ["error stopping service " +:+ sName +:+ ": " +:+ e]
        | None => result
        end in
      '(final, evs') ← stopLoop gg rest result';
      Some (final, evs ++ evs')
  end.

(** [order]: the key order of the [range gg.registeredServices] loop. *)
Definition StopService (gg : GladiusGuardian) (name : string)
    (order : list string) : option (option error * list Event) :=
  if isAll name then
    match stopLoop gg order [] with
    | Some (result, evs) =>
        let err := ErrorOrNil result in
        match err with
        | Some _ =>
            Some (err,
                  evs ++ [EvLogError "warning"
                            "Error stoping one or more service"
                            (multiError result)])
        | None => Some (err, evs)
        end
    | None => None
    end
  else
    match stopServiceInternal gg name with
    | Some (err, evs) => Some (errorString <$> err, evs)
    | None => None
    end.

(** The goroutine started after [p.Start()]: [ps] is what [p.Wait()]
    finds when the child is gone. *)
Definition waitWatcher (gg : GladiusGuardian) (name location : string)
    (env : list string) (ps : os.ProcessState)
    : option (GladiusGuardian * list Event) :=
  let err := exec.WaitError ps in
  let gg1 := set_services gg (<[name := None]> (services gg)) in
  match err with
  | Some e =>
      if negb (String.eqb e "signal: killed") then
        '(gg2, evs) ← AppendToLog gg1 name ("Exiting... " +:+ e);
        Some (gg2,
              EvLog "error" "Service errored out"
                [("exec_location", location);
                 ("environment_vars", Join env ", ");
                 ("err", e)] :: evs)
      else Some (gg1, [])
  | None => Some (gg1, [])
  end.

(** [timeout] is the pointer handed over by the caller; the sleep
    dereferences it. When [graceFate o] is set the watcher has run
    before the sleep ends and [p.ProcessState] is set. The two reader
    goroutines are not part of the call: each line they read is an
    [AppendToLog] of its own (an [OpAppendToLog] step of [run]), at
    whatever moment the scheduler picks, so the logs this function
    returns are the logs without the output of the child. *)
Definition spawnProcess (gg : GladiusGuardian) (name location : string)
    (env : list string) (timeout : option Z) (o : SpawnOracle)
    : option (GladiusGuardian * (exec.Cmd + string) * list Event) :=
  let p := exec.Command location in
  let p := {| exec.Path := exec.Path p; exec.Env := env;
              exec.Process := exec.Process p;
              exec.ProcessState := exec.ProcessState p |} in
  match stdoutPipe o with
  | Some err =>
      Some (gg, inr ("Error creating StdoutPipe for command: " +:+ err), [])
  | None =>
  match stderrPipe o with
  | Some err =>
      Some (gg, inr ("Error creating StderrPipe for command: " +:+ err), [])
  | None =>
  match start o with
  | inl err =>
      Some (gg, inr ("Error starting process: " +:+ err),
            [EvStart location env;
             EvLog "warning" "Couldn't spawn process"
               [("exec_location", location);
                ("environment_vars", Join env ", ");
                ("err", err)]])
  | inr pid =>
      let p := {| exec.Path := exec.Path p; exec.Env := exec.Env p;
                  exec.Process := Some {| os.Pid := pid |};
                  exec.ProcessState := None |} in
      '(gg1, p, evs) ←
        match graceFate o with
        | Some ps =>
            '(gg1, evs) ← waitWatcher gg name location env ps;
            Some (gg1,
                  {| exec.Path := exec.Path p; exec.Env := exec.Env p;
                     exec.Process := exec.Process p;
                     exec.ProcessState := Some ps |},
                  evs)
        | None => Some (gg, p, [])
        end;
      d ← timeout;
      let evs := EvStart location env :: EvSleep d :: evs in
      match exec.ProcessState p with
      | Some ps =>
          if os.Exited ps then
            Some (gg1,
                  inr ("process " +:+ name +:+
                       " already exited, check the logs for errors"),
                  evs)
          else Some (gg1, inl p, evs)
      | None => Some (gg1, inl p, evs)
      end
  end end end.

Definition startServiceInternal (gg : GladiusGuardian) (name : string)
    (env : list string) (o : SpawnOracle)
    : option (option string * GladiusGuardian * list Event) :=
  match registeredServices gg !! name with
  | None => Some (Some "attempted to start unregistered service", gg, [])
  | Some serviceSettings =>
      match service gg name with
      | Some _ =>
          Some (Some ("can't start " +:+ name +:+
                      " because it's already running"), gg, [])
      | None =>
          let env :=
            if (length env =? 0)%nat then DefaultEnvironment cfg else env in
          match checkTimeout gg with
          | Some err => Some (Some err, gg, [])
          | None =>
              '(gg1, r, evs) ←
                spawnProcess gg name
                  (serviceSettings.execName serviceSettings)
                  (serviceSettings.env serviceSettings)
                  (spawnTimeout gg) o;
              match r with
              | inr err => Some (Some err, gg1, evs)
              | inl p =>
                  Some (None,
                        set_services gg1 (<[name := Some p]> (services gg1)),
                        evs ++
                        [EvLog "debug" "Started service"
                           [("service_name", name);
                            ("exec_location",
                             serviceSettings.execName serviceSettings);
                            ("environment_vars", Join env ", ")]])
              end
          end
      end
  end.

Fixpoint startLoop (gg : GladiusGuardian) (order : list string)
    (env : list string) (o : string → SpawnOracle) (result : list string)
    : option (list string * GladiusGuardian * list Event) :=
  match order with
  | [] => Some (result, gg, [])
  | sName :: rest =>
      '(err, gg1, evs) ← startServiceInternal gg sName env (o sName);
      let result' :=
        match err with
        | Some e =>
            result ++ ["error starting service " +:+ sName +:+ ": " +:+ e]
        | None => result
        end in
      '(final, gg2, evs') ← startLoop gg1 rest env o result';
      Some (final, gg2, evs ++ evs')
  end.

(** [order]: the key order of the [range gg.registeredServices] loop;
    [o]: what the OS answers to the spawn of each service. *)
Definition StartService (gg : GladiusGuardian) (name : string)
    (env : list string) (order : list string) (o : string → SpawnOracle)
    : option (option error * GladiusGuardian * list Event) :=
  if isAll name then
    match startLoop gg order env o [] with
    | Some (result, gg1, evs) => Some (ErrorOrNil result, gg1, evs)
    | None => None
    end
  else
    match startServiceInternal gg name env (o name) with
    | Some (err, gg1, evs) => Some (errorString <$> err, gg1, evs)
    | None => None
    end.

(** *** Runs of the supervisor

    What callers and the goroutines of the package can do to a guardian,
    one operation at a time. [OpAppendToLog] is a reader goroutine
    delivering a line; [OpProcessExit] is the watcher of a child that
    was still running when its [spawnProcess] returned. *)
Inductive Op :=
| OpRegisterService (name execLocation : string) (env : list string)
| OpSetTimeout (t : option Z)
| OpStartService (name : string) (env : list string)
    (order : list string) (o : string → SpawnOracle)
| OpStopService (name : string) (order : list string)
| OpAddLogClient (serviceName : string) (upgrade : string + Conn)
| OpAppendToLog (serviceName line : string)
| OpProcessExit (name location : string) (env : list string)
    (ps : os.ProcessState).

Definition step (gg : GladiusGuardian) (op : Op)
    : option (GladiusGuardian * list Event) :=
  match op with
  | OpRegisterService name execLocation env =>
      Some (RegisterService gg name execLocation env)
  | OpSetTimeout t => Some (SetTimeout gg t, [])
  | OpStartService name env order o =>
      match StartService gg name env order o with
      | Some (_, gg1, evs) => Some (gg1, evs)
      | None => None
      end
  | OpStopService name order =>
      match StopService gg name order with
      | Some (_, evs) => Some (gg, evs)
      | None => None
      end
  | OpAddLogClient serviceName upgrade =>
      Some (AddLogClient gg serviceName upgrade)
  | OpAppendToLog serviceName line => AppendToLog gg serviceName line
  | OpProcessExit name location env ps =>
      waitWatcher gg name location env ps
  end.

Fixpoint run (gg : GladiusGuardian) (ops : list Op)
    : option (GladiusGuardian * list Event) :=
  match ops with
  | [] => Some (gg, [])
  | op :: rest =>
      '(gg1, evs) ← step gg op;
      '(gg2, evs') ← run gg1 rest;
      Some (gg2, evs ++ evs')
  end.

(** The failure a bulk stop records for service [n], if any. *)
Definition stopFailure (gg : GladiusGuardian) (n : string) : option string :=
  match service gg n with
  | None =>
      Some ("error stopping service " +:+ n +:+
            ": service is not running so can not stop")
  | Some c =>
      match exec.Process c ≫= (λ proc, kill (os.Pid proc)) with
      | Some e =>
          Some ("error stopping service " +:+ n +:+
                ": couldn't kill service, error was: " +:+ e)
      | None => None
      end
  end.
End WithEnvironment.

Definition isSetTimeout (op : Op) : bool :=
  match op with
  | OpSetTimeout _ => true
  | _ => false
  end.

(** The pid of the process recorded for [n], if there is one. *)
Definition runningPid (gg : GladiusGuardian) (n : string) : option Z :=
  c ← service gg n; os.Pid <$> exec.Process c.

Definition isRunning (gg : GladiusGuardian) (n : string) : bool :=
  bool_decide (is_Some (service gg n)).

(** The kill of the process recorded for [n] is refused by the OS. *)
Definition killFails (kill : Z → option string) (gg : GladiusGuardian)
    (n : string) : bool :=
  bool_decide (is_Some (runningPid gg n ≫= kill)).

(** Every recorded command was started and belongs to a registered
    service. *)
Definition records_ok (gg : GladiusGuardian) : Prop :=
  ∀ n c, service gg n = Some c →
    is_Some (exec.Process c) ∧ is_Some (registeredServices gg !! n).

(** No timeout was set and no process is recorded. *)
Definition idle (gg : GladiusGuardian) : Prop :=
  spawnTimeout gg = None ∧ ∀ n, service gg n = None.

End Guardian.

(** The [Process.Kill] calls among the events. *)
Definition kills (evs : list Event) : list Z :=
  omap (λ e, match e with EvKill pid => Some pid | _ => None end) evs.

(** The [p.Start()] calls among the events. *)
Definition starts (evs : list Event) : list (string * list string) :=
  omap (λ e, match e with EvStart path env => Some (path, env) | _ => None end)
       evs.

(** The entry a bulk start records for service [n] failing with [e]. *)
Definition startError (n e : string) : string :=
  "error starting service " +:+ n +:+ ": " +:+ e.

(** ** The earlier snapshot of guardian.go (src/unnamed/part_000) *)

Module Part000.

Record GladiusGuardian := {
  spawnTimeout : option Z;
  registeredServices : gmap string serviceSettings.t;
  services : gmap string (option exec.Cmd);
  serviceLogs : gmap string FixedSizeLog.t
}.

Definition New : GladiusGuardian :=
  {| spawnTimeout := None;
     registeredServices := ∅;
     services := ∅;
     serviceLogs := ∅ |}.

Definition service (gg : GladiusGuardian) (name : string) : option exec.Cmd :=
  mjoin (services gg !! name).

Definition set_services (gg : GladiusGuardian)
    (s : gmap string (option exec.Cmd)) : GladiusGuardian :=
  {| spawnTimeout := spawnTimeout gg;
     registeredServices := registeredServices gg;
     services := s;
     serviceLogs := serviceLogs gg |}.

Definition newServiceStatus (p : option exec.Cmd) : option serviceStatus.t :=
  match p with
  | Some c =>
      proc ← exec.Process c;
      Some {| serviceStatus.Running := true;
              serviceStatus.PID := os.Pid proc;
              serviceStatus.Env := exec.Env c;
              serviceStatus.Location := exec.Path c |}
  | None =>
      Some {| serviceStatus.Running := false;
              serviceStatus.PID := 0;
              serviceStatus.Env := [];
              serviceStatus.Location := "" |}
  end.

Definition RegisterService (gg : GladiusGuardian) (name execLocation : string)
    (env : list string) : GladiusGuardian * list Event :=
  ({| spawnTimeout := spawnTimeout gg;
      registeredServices :=
        <[name := {| serviceSettings.env := env;
                     serviceSettings.execName := execLocation |}]>
          (registeredServices gg);
      services := <[name := None]> (services gg);
      serviceLogs := serviceLogs gg |},
   [EvLog "debug" "Registered new service"
      [("service_name", name); ("exec_location", execLocation);
       ("environment_vars", Join env ", ")]]).

Definition SetTimeout (gg : GladiusGuardian) (t : option Z) : GladiusGuardian :=
  {| spawnTimeout := t;
     registeredServices := registeredServices gg;
     services := services gg;
     serviceLogs := serviceLogs gg |}.

Fixpoint statusLoop (gg : GladiusGuardian) (order : list string)
    (acc : gmap string serviceStatus.t) : option (gmap string serviceStatus.t) :=
  match order with
  | [] => Some acc
  | serviceName :: rest =>
      st ← newServiceStatus (service gg serviceName);
      statusLoop gg rest (<[serviceName := st]> acc)
  end.

Definition GetServicesStatus (gg : GladiusGuardian) (order : list string)
    : option (gmap string serviceStatus.t) :=
  statusLoop gg order ∅.

Definition checkTimeout (gg : GladiusGuardian) : option string :=
  match spawnTimeout gg with
  | None =>
      Some "spawn timeout not set, please set it before a process is spawned"
  | Some _ => None
  end.

(** The connection is handed to a goroutine that writes a fixed text once
    a second until a write fails; [ticks] is how many writes it has done.
    The guardian keeps no reference to the connection. *)
Definition AddLogClient (gg : GladiusGuardian) (upgrade : string + Conn)
    (ticks : nat) : GladiusGuardian * list Event :=
  match upgrade with
  | inl err => (gg, [EvLog "warning" err []])
  | inr conn =>
      (gg, mjoin (replicate ticks
                    [EvSleep 1000000000; EvWriteMessage conn "testing123"]))
  end.

Section WithEnvironment.
Variable cfg : Config.
Variable kill : Z → option string.

(** [fmt.Errorf] prints a nil error under the verb s as a missing
    operand. *)
Definition fmtError (err : option string) : string :=
  match err with
  | Some e => e
  | None => "%!s(<nil>)"
  end.

Fixpoint stopAllLoop (gg : GladiusGuardian) (order : list string)
    (result : list string) : option (list string * list Event) :=
  match order with
  | [] => Some (result, [])
  | sName :: rest =>
      '(result1, evs) ←
        match service gg sName with
        | Some s =>
            proc ← exec.Process s;
            let err := kill (os.Pid proc) in
            Some (result ++ ["error stopping service " +:+ sName +:+ ": "
                             +:+ fmtError err],
                  [EvKill (os.Pid proc)])
        | None => Some (result, [])
        end;
      let result2 := result1 ++ ["service not running: " +:+ sName] in
      '(final, evs') ← stopAllLoop gg rest result2;
      Some (final, evs ++ evs')
  end.

(** [order]: the key order of the [range gg.services] loop. *)
Definition StopAll (gg : GladiusGuardian) (order : list string)
    : option (option error * list Event) :=
  match stopAllLoop gg order [] with
  | Some (result, evs) =>
      let err := ErrorOrNil result in
      match err with
      | Some _ =>
          Some (err,
                evs ++ [EvLogError "warning"
                          "Error stoping one or more service"
                          (multiError result)])
      | None => Some (err, evs)
      end
  | None => None
  end.

(** The entries a [StopAll] sweep records for service [n]. *)
Definition stopAllEntries (gg : GladiusGuardian) (n : string) : list string :=
  match service gg n with
  | Some s =>
      ["error stopping service " +:+ n +:+ ": "
       +:+ fmtError (exec.Process s ≫= λ proc, kill (os.Pid proc));
       "service not running: " +:+ n]
  | None => ["service not running: " +:+ n]
  end.

Definition AppendToLog (gg : GladiusGuardian) (serviceName line : string)
    : option GladiusGuardian :=
  log ← match serviceLogs gg !! serviceName with
        | None => FixedSizeLog.New (MaxLogLines cfg)
        | Some l => Some l
        end;
  Some {| spawnTimeout := spawnTimeout gg;
          registeredServices := registeredServices gg;
          services := services gg;
          serviceLogs :=
            <[serviceName := FixedSizeLog.Append log line]> (serviceLogs gg) |}.

Definition waitWatcher (gg : GladiusGuardian) (name location : string)
    (env : list string) (ps : os.ProcessState)
    : option (GladiusGuardian * list Event) :=
  let err := exec.WaitError ps in
  let gg1 := set_services gg (<[name := None]> (services gg)) in
  match err with
  | Some e =>
      if negb (String.eqb e "signal: killed") then
        gg2 ← AppendToLog gg1 name ("Exiting... " +:+ e);
        Some (gg2,
              [EvLog "error" "Service errored out"
                 [("exec_location", location);
                  ("environment_vars", Join env ", ");
                  ("err", e)];
               EvPrintln name])
      else Some (gg1, [])
  | None => Some (gg1, [])
  end.

Definition spawnProcess (gg : GladiusGuardian) (name location : string)
    (env : list string) (timeout : option Z) (o : SpawnOracle)
    : option (GladiusGuardian * (exec.Cmd + string) * list Event) :=
  let p := exec.Command location in
  let p := {| exec.Path := exec.Path p; exec.Env := env;
              exec.Process := exec.Process p;
              exec.ProcessState := exec.ProcessState p |} in
  match stdoutPipe o with
  | Some err =>
      Some (gg, inr ("Error creating StdoutPipe for command: " +:+ err), [])
  | None =>
  match stderrPipe o with
  | Some err =>
      Some (gg, inr ("Error creating StderrPipe for command: " +:+ err), [])
  | None =>
  match start o with
  | inl err =>
      Some (gg, inr ("Error starting process: " +:+ err),
            [EvStart location env;
             EvLog "warning" "Couldn't spawn process"
               [("exec_location", location);
                ("environment_vars", Join env ", ");
                ("err", err)]])
  | inr pid =>
      let p := {| exec.Path := exec.Path p; exec.Env := exec.Env p;
                  exec.Process := Some {| os.Pid := pid |};
                  exec.ProcessState := None |} in
      '(gg1, p, evs) ←
        match graceFate o with
        | Some ps =>
            '(gg1, evs) ← waitWatcher gg name location env ps;
            Some (gg1,
                  {| exec.Path := exec.Path p; exec.Env := exec.Env p;
                     exec.Process := exec.Process p;
                     exec.ProcessState := Some ps |},
                  evs)
        | None => Some (gg, p, [])
        end;
      d ← timeout;
      let evs := EvStart location env :: EvSleep d :: evs in
      (* p.ProcessState.Exited() with no nil test: the method reads
         through the pointer *)
      ps ← exec.ProcessState p;
      if os.Exited ps then
        Some (gg1,
              inr ("process " +:+ name +:+
                   " already exited, check the logs for errors"),
              evs)
      else Some (gg1, inl p, evs)
  end end end.

Definition StartService (gg : GladiusGuardian) (name : string)
    (env : list string) (o : SpawnOracle)
    : option (option string * GladiusGuardian * list Event) :=
  match registeredServices gg !! name with
  | None => Some (Some "attempted to start unregistered service", gg, [])
  | Some serviceSettings =>
      match service gg name with
      | Some _ =>
          Some (Some ("can't start " +:+ name +:+
                      " because it's already running"), gg, [])
      | None =>
          let env :=
            if (length env =? 0)%nat then DefaultEnvironment cfg else env in
          match checkTimeout gg with
          | Some err => Some (Some err, gg, [])
          | None =>
              '(gg1, r, evs) ←
                spawnProcess gg name
                  (serviceSettings.execName serviceSettings)
                  (serviceSettings.env serviceSettings)
                  (spawnTimeout gg) o;
              match r with
              | inr err => Some (Some err, gg1, evs)
              | inl p =>
                  Some (None,
                        set_services gg1 (<[name := Some p]> (services gg1)),
                        evs ++
                        [EvLog "debug" "Started service"
                           [("service_name", name);
                            ("exec_location",
                             serviceSettings.execName serviceSettings);
                            ("environment_vars", Join env ", ")]])
              end
          end
      end
  end.

Definition StopService (gg : GladiusGuardian) (name : string)
    : option (option string * list Event) :=
  match registeredServices gg !! name with
  | None => Some (Some "attempted to stop unregistered service", [])
  | Some serviceSettings =>
      match service gg name with
      | None => Some (Some "service is not running so can not stop", [])
      | Some service =>
          proc ← exec.Process service;
          match kill (os.Pid proc) with
          | Some err =>
              Some (Some ("couldn't kill service, error was: " +:+ err),
                    [EvKill (os.Pid proc);
                     EvLog "warning" "Couldn't kill service"
                       [("service_name", name);
                        ("exec_location",
                         serviceSettings.execName serviceSettings);
                        ("environment_vars",
                         Join (serviceSettings.env serviceSettings) ", ");
                        ("err", err)]])
          | None => Some (None, [EvKill (os.Pid proc)])
          end
      end
  end.
End WithEnvironment.

End Part000.

(** ** The two snapshots side by side *)

(** The state of the earlier snapshot inside the state of the later one:
    everything but the subscriber sets. *)
Definition erase (gg : Guardian.GladiusGuardian) : Part000.GladiusGuardian :=
  {| Part000.spawnTimeout := Guardian.spawnTimeout gg;
     Part000.registeredServices := Guardian.registeredServices gg;
     Part000.services := Guardian.services gg;
     Part000.serviceLogs := Guardian.serviceLogs gg |}.

(** A plain error of the earlier snapshot as an error value. *)
Definition plainError (e : option string) : option error := errorString <$> e.

(** The child was started and its [Wait] has not concluded when the sleep
    ends: the one answer of the OS on which the inspections of the two
    snapshots part. *)
Definition childStillRunning (o : SpawnOracle) : bool :=
  bool_decide (stdoutPipe o = None) && bool_decide (stderrPipe o = None) &&
  (if start o is inr _ then true else false) &&
  bool_decide (graceFate o = None).

(** ** Further notions used in the properties *)

(** The [time.Sleep] calls among the events. *)
Definition sleeps (evs : list Event) : list Z :=
  omap (λ e, match e with EvSleep d => Some d | _ => None end) evs.

(** The websocket writes among the events. *)
Definition writes (evs : list Event) : list (Conn * string) :=
  omap (λ e, match e with
             | EvWriteMessage conn text => Some (conn, text)
             | _ => None
             end) evs.







(** The subscribers of a service, in the order they were added. *)
Definition subscribers (gg : Guardian.GladiusGuardian) (serviceName : string)
    : list Conn :=
  default [] (Guardian.serviceWebSockets gg !! serviceName).

(** [AddLogClient] for each of the upgraded connections [conns] in turn. *)
Definition addClients (gg : Guardian.GladiusGuardian) (serviceName : string)
    (conns : list Conn) : Guardian.GladiusGuardian :=
  foldl (λ g conn, (Guardian.AddLogClient g serviceName (inr conn)).1) gg conns.

(** The guardian with its log buffers replaced: what the reader goroutines
    of the children may have made of the logs in the meantime. *)
Definition withLogs (gg : Guardian.GladiusGuardian)
    (logs : gmap string FixedSizeLog.t) : Guardian.GladiusGuardian :=
  {| Guardian.spawnTimeout := Guardian.spawnTimeout gg;
     Guardian.registeredServices := Guardian.registeredServices gg;
     Guardian.services := Guardian.services gg;
     Guardian.serviceLogs := logs;
     Guardian.serviceWebSockets := Guardian.serviceWebSockets gg |}.

(** Every recorded command was started with the environment that is
    registered for its service now. *)
Definition records_match (gg : Guardian.GladiusGuardian) : Prop :=
  ∀ n c, Guardian.service gg n = Some c →
    ∃ ss, Guardian.registeredServices gg !! n = Some ss ∧
          exec.Env c = serviceSettings.env ss ∧
          is_Some (exec.Process c).

(** Every registered service has a slot in the process table. *)
Definition registered_listed (gg : Guardian.GladiusGuardian) : Prop :=
  ∀ n, is_Some (Guardian.registeredServices gg !! n) →
       is_Some (Guardian.services gg !! n).

(** ** Concrete inputs used by the examples *)

Module Examples.
Import Guardian.

Definition cfg : Config :=
  {| DefaultEnvironment := ["MODE=default"]; MaxLogLines := 3 |}.

Definition killOk : Z → option string := λ _, None.

(** The child starts with [pid] and is alive when the sleep ends. *)
Definition stillRunning (pid : Z) : SpawnOracle :=
  {| stdoutPipe := None; stderrPipe := None; start := inr pid;
     graceFate := None |}.

(** The child starts with [pid] and is gone, with state [ps], before the
    sleep ends. *)
Definition gone (pid : Z) (ps : os.ProcessState) : SpawnOracle :=
  {| stdoutPipe := None; stderrPipe := None; start := inr pid;
     graceFate := Some ps |}.

Definition registerWorker : list Op :=
  [OpRegisterService "worker" "/usr/bin/worker" ["A=1"]].

Definition configureWorker : list Op :=
  registerWorker ++ [OpSetTimeout (Some 50000000)].

Definition startWorker : list Op :=
  configureWorker ++
  [OpStartService "worker" ["B=2"] ["worker"] (λ _, stillRunning 42)].

Definition workerCmd : exec.Cmd :=
  {| exec.Path := "/usr/bin/worker"; exec.Env := ["A=1"];
     exec.Process := Some {| os.Pid := 42 |}; exec.ProcessState := None |}.

(** The guardian after [registerWorker]. *)
Definition workerRegistered : GladiusGuardian :=
  {| spawnTimeout := None;
     registeredServices :=
       {["worker" := {| serviceSettings.env := ["A=1"];
                        serviceSettings.execName := "/usr/bin/worker" |}]};
     services := {["worker" := None]};
     serviceLogs := ∅;
     serviceWebSockets := {["worker" := []]} |}.

(** The guardian after [configureWorker]. *)
Definition workerConfigured : GladiusGuardian :=
  SetTimeout workerRegistered (Some 50000000).

(** The guardian after [startWorker]. *)
Definition workerRunning : GladiusGuardian :=
  set_services workerConfigured {["worker" := Some workerCmd]}.

(** What [startWorker] does to the outside. *)
Definition startWorkerEvents : list Event :=
  [EvLog "debug" "Registered new service"
     [("service_name", "worker"); ("exec_location", "/usr/bin/worker");
      ("environment_vars", "A=1")];
   EvStart "/usr/bin/worker" ["A=1"];
   EvSleep 50000000;
   EvLog "debug" "Started service"
     [("service_name", "worker"); ("exec_location", "/usr/bin/worker");
      ("environment_vars", "B=2")]].

(** The command installed when the child dies of a signal during the
    grace period. *)
Definition crashedCmd : exec.Cmd :=
  {| exec.Path := "/usr/bin/worker"; exec.Env := ["A=1"];
     exec.Process := Some {| os.Pid := 42 |};
     exec.ProcessState := Some (os.Signaled "segmentation fault") |}.

(** Two services, [api] and [db], registered and a timeout set. *)
Definition registerTwo : list Op :=
  [OpRegisterService "api" "/usr/bin/api" ["PORT=80"];
   OpRegisterService "db" "/usr/bin/db" [];
   OpSetTimeout (Some 50000000)].

Definition twoConfigured : GladiusGuardian :=
  {| spawnTimeout := Some 50000000;
     registeredServices :=
       <["db" := {| serviceSettings.env := [];
                    serviceSettings.execName := "/usr/bin/db" |}]>
         {["api" := {| serviceSettings.env := ["PORT=80"];
                       serviceSettings.execName := "/usr/bin/api" |}]};
     services := <["db" := None]> {["api" := None]};
     serviceLogs := ∅;
     serviceWebSockets := <["db" := []]> {["api" := []]} |}.

Definition registerTwoEvents : list Event :=
  [EvLog "debug" "Registered new service"
     [("service_name", "api"); ("exec_location", "/usr/bin/api");
      ("environment_vars", "PORT=80")];
   EvLog "debug" "Registered new service"
     [("service_name", "db"); ("exec_location", "/usr/bin/db");
      ("environment_vars", "")]].

(** [api] comes up with pid 7; [db] exits with status 1 during the grace
    period. *)
Definition twoOracle (name : string) : SpawnOracle :=
  if String.eqb name "api" then stillRunning 7
  else gone 8 (os.ExitStatus 1).

(** The kill of pid 7 is refused, every other kill goes through. *)
Definition killRefused7 (pid : Z) : option string :=
  if pid =? 7 then Some "operation not permitted" else None.

(** Of the two services only [api] is started. *)
Definition startApi : list Op :=
  registerTwo ++ [OpStartService "api" [] ["api"; "db"] twoOracle].

Definition apiCmd : exec.Cmd :=
  {| exec.Path := "/usr/bin/api"; exec.Env := ["PORT=80"];
     exec.Process := Some {| os.Pid := 7 |}; exec.ProcessState := None |}.

(** The guardian after [startApi]: [api] runs with pid 7, [db] does not
    run. *)
Definition apiRunning : GladiusGuardian :=
  set_services twoConfigured (<["api" := Some apiCmd]> (services twoConfigured)).

Definition startApiEvents : list Event :=
  registerTwoEvents ++
  [EvStart "/usr/bin/api" ["PORT=80"];
   EvSleep 50000000;
   EvLog "debug" "Started service"
     [("service_name", "api"); ("exec_location", "/usr/bin/api");
      ("environment_vars", "MODE=default")]].
End Examples.

(** * Properties *)

(** ** Range orders and small facts *)

Lemma range_order_NoDup {V} (m : gmap string V) order :
  range_order m order → NoDup order.
Proof.
  unfold range_order. intros ->. apply NoDup_fst_map_to_list.
Qed.

Lemma range_order_elem {V} (m : gmap string V) order n :
  range_order m order → n ∈ order ↔ is_Some (m !! n).
Proof.
  unfold range_order. intros ->. rewrite list_elem_of_fmap. split.
  - intros [[k v] [-> Hin]]. apply elem_of_map_to_list in Hin. by exists v.
  - intros [v Hv]. exists (n, v). split; [done|]. by apply elem_of_map_to_list.
Qed.

Lemma range_order_length {V} (m : gmap string V) order :
  range_order m order → length order = size m.
Proof.
  unfold range_order. intros ->. by rewrite length_fmap, length_map_to_list.
Qed.

Lemma aggregated_ErrorOrNil result : aggregated (ErrorOrNil result) = result.
Proof. by destruct result. Qed.

Lemma kills_app evs evs' : kills (evs ++ evs') = kills evs ++ kills evs'.
Proof. apply omap_app. Qed.

Lemma examples_run_registered :
  Guardian.run Examples.cfg Examples.killOk Guardian.New Examples.registerWorker
  = Some (Examples.workerRegistered,
          [EvLog "debug" "Registered new service"
             [("service_name", "worker"); ("exec_location", "/usr/bin/worker");
              ("environment_vars", "A=1")]]).
Proof. vm_compute. reflexivity. Qed.

Lemma examples_run_running :
  Guardian.run Examples.cfg Examples.killOk Guardian.New Examples.startWorker
  = Some (Examples.workerRunning, Examples.startWorkerEvents).
Proof. vm_compute. reflexivity. Qed.

(** ** Bulk stop (guardian.go, [StopService] with the sentinel) *)

Section BulkStop.
Import Guardian.
Variable kill : Z → option string.
Variable gg : GladiusGuardian.
Hypothesis Hok : records_ok gg.

(** One call of [stopServiceInternal] on a registered name: no panic, one
    kill exactly when a process is recorded, and the failure that
    [stopFailure] describes. *)
Lemma stopServiceInternal_registered n :
  is_Some (registeredServices gg !! n) →
  ∃ err evs,
    stopServiceInternal kill gg n = Some (err, evs) ∧
    kills evs = option_list (runningPid gg n) ∧
    (λ e, "error stopping service " +:+ n +:+ ": " +:+ e) <$> err
    = stopFailure kill gg n.
Proof.
  intros [ss Hss]. unfold stopServiceInternal, stopFailure, runningPid.
  rewrite Hss. destruct (service gg n) as [c|] eqn:Hc; simpl.
  - destruct (Hok n c Hc) as [[proc Hproc] _]. rewrite Hproc. simpl.
    destruct (kill (os.Pid proc)) as [e|]; eauto.
  - eauto.
Qed.

Lemma stopLoop_outcomes order result :
  (∀ n, n ∈ order → is_Some (registeredServices gg !! n)) →
  ∃ evs,
    stopLoop kill gg order result
    = Some (result ++ omap (stopFailure kill gg) order, evs) ∧
    kills evs = omap (runningPid gg) order.
Proof.
  revert result. induction order as [|n rest IH]; intros result Hreg; simpl.
  - exists []. by rewrite app_nil_r.
  - destruct (stopServiceInternal_registered n) as (err & evs & -> & Hk & Hf).
    { apply Hreg. left. }
    simpl.
    edestruct IH as (evs' & -> & Hk'); [intros; apply Hreg; by right|].
    simpl. exists (evs ++ evs'). rewrite kills_app, Hk, Hk', <- Hf.
    split; [|by destruct (runningPid gg n)].
    f_equal. f_equal. destruct err; simpl; [|done].
    by rewrite <- app_assoc.
Qed.

Lemma runningPid_isRunning n :
  is_Some (runningPid gg n) ↔ isRunning gg n.
Proof.
  unfold runningPid, isRunning. rewrite bool_decide_spec.
  destruct (service gg n) as [c|] eqn:Hc; simpl.
  - destruct (Hok n c Hc) as [[proc ->] _]. simpl. split; eauto.
  - split; intros [? ?]; done.
Qed.

(** The stop of [n] records no failure exactly when [n] has a recorded
    process and the OS accepts its kill. *)
Lemma stopFailure_None n :
  stopFailure kill gg n = None ↔
  ∃ pid, runningPid gg n = Some pid ∧ kill pid = None.
Proof.
  unfold stopFailure, runningPid.
  destruct (service gg n) as [c|] eqn:Hc; simpl.
  - destruct (Hok n c Hc) as [[proc Hproc] _]. rewrite Hproc. simpl.
    destruct (kill (os.Pid proc)) as [e|] eqn:Hkill.
    + split; [done|]. intros (pid & [= <-] & ?). congruence.
    + split; [|done]. intros _. by exists (os.Pid proc).
  - split; [done|]. by intros (pid & ? & _).
Qed.

(** A registered name is in one of three classes. *)
Lemma sweep_classes n :
  (runningPid gg n = None ∧ isRunning gg n = false ∧
   killFails kill gg n = false ∧ is_Some (stopFailure kill gg n)) ∨
  (is_Some (runningPid gg n) ∧ isRunning gg n = true ∧
   killFails kill gg n = true ∧ is_Some (stopFailure kill gg n)) ∨
  (is_Some (runningPid gg n) ∧ isRunning gg n = true ∧
   killFails kill gg n = false ∧ stopFailure kill gg n = None).
Proof.
  unfold killFails, stopFailure, runningPid, isRunning.
  destruct (service gg n) as [c|] eqn:Hc; simpl.
  - destruct (Hok n c Hc) as [[proc Hproc] _]. rewrite Hproc. simpl.
    right. destruct (kill (os.Pid proc)) as [e|] eqn:Hkill; [left|right];
      repeat split; eauto;
      first [ apply bool_decide_eq_true; by eauto
            | apply bool_decide_eq_false; by intros [? ?] ].
  - left. repeat split; eauto; apply bool_decide_eq_false; by intros [? ?].
Qed.

(** How many kills and how many failures a sweep over [order] yields. *)
Lemma sweep_counts order :
  length (omap (runningPid gg) order) = length (filter (isRunning gg) order) ∧
  (length (omap (stopFailure kill gg) order)
   = length order - length (filter (isRunning gg) order)
     + length (filter (killFails kill gg) order))%nat.
Proof.
  induction order as [|n rest [IH1 IH2]]; [done|].
  pose proof (length_filter (isRunning gg) rest) as Hle.
  rewrite !filter_cons. cbn [omap list_omap].
  destruct (sweep_classes n)
    as [(Hp & Hr & Hk & [f Hf])|[([pid Hp] & Hr & Hk & [f Hf])
                                |([pid Hp] & Hr & Hk & Hf)]];
    rewrite Hp, Hr, Hk, Hf; simpl; rewrite IH1, IH2; split; lia.
Qed.
End BulkStop.

(** C1, as the code has it: with the "all" or empty sentinel every
    registered service is visited exactly once; each service with a recorded
    process gets exactly one kill, each service without one is recorded as a
    failure, and the returned aggregate holds exactly the failures: the N-K
    services that are not running and those of the K kills that the OS
    refused. A kill that succeeds leaves no entry in the aggregate, and
    the result is nil exactly when nothing failed, that is when every
    registered service had a recorded process and the OS accepted every
    kill. *)
Theorem StopService_all_outcomes (kill : Z → option string)
    (gg : Guardian.GladiusGuardian) (name : string) (order : list string) :
  isAll name = true →
  range_order (Guardian.registeredServices gg) order →
  Guardian.records_ok gg →
  ∃ err evs,
    Guardian.StopService kill gg name order = Some (err, evs) ∧
    err = ErrorOrNil (omap (Guardian.stopFailure kill gg) order) ∧
    (err = None ↔
     ∀ n, n ∈ order →
       ∃ pid, Guardian.runningPid gg n = Some pid ∧ kill pid = None) ∧
    NoDup order ∧
    (∀ n, n ∈ order ↔ is_Some (Guardian.registeredServices gg !! n)) ∧
    length order = size (Guardian.registeredServices gg) ∧
    kills evs = omap (Guardian.runningPid gg) order ∧
    aggregated err = omap (Guardian.stopFailure kill gg) order ∧
    length (kills evs) = length (filter (Guardian.isRunning gg) order) ∧
    (length (aggregated err)
     = length order - length (filter (Guardian.isRunning gg) order)
       + length (filter (Guardian.killFails kill gg) order))%nat.
Proof.
  intros Hall Hord Hok. unfold Guardian.StopService. rewrite Hall.
  destruct (stopLoop_outcomes kill gg Hok order []) as (evs & -> & Hk).
  { intros n Hn. by apply (range_order_elem _ order n Hord). }
  simpl. destruct (sweep_counts kill gg Hok order) as [Hc1 Hc2].
  set (fails := omap (Guardian.stopFailure kill gg) order) in *.
  assert (∃ evs', (match ErrorOrNil fails with
                   | Some _ =>
                       Some (ErrorOrNil fails,
                             evs ++ [EvLogError "warning"
                                       "Error stoping one or more service"
                                       (multiError fails)])
                   | None => Some (ErrorOrNil fails, evs)
                   end) = Some (ErrorOrNil fails, evs') ∧ kills evs' = kills evs)
    as (evs' & -> & Hk').
  { destruct (ErrorOrNil fails); eexists; (split; [reflexivity|]); [|done].
    rewrite kills_app. simpl. by rewrite app_nil_r. }
  exists (ErrorOrNil fails), evs'. rewrite aggregated_ErrorOrNil, Hk', Hk.
  split; [done|]. split; [done|]. split.
  { assert (ErrorOrNil fails = None ↔ fails = []) as -> by (by destruct fails).
    unfold fails. clear -Hok. induction order as [|n rest IH].
    - split; [|done]. intros _ n Hn. by apply elem_of_nil in Hn.
    - cbn [omap list_omap].
      pose proof (stopFailure_None kill gg Hok n) as Hn.
      destruct (Guardian.stopFailure kill gg n) as [f|].
      + split; [done|]. intros H. destruct (H n) as (pid & Hp & Hkill); [left|].
        assert (Some f = @None string) as E; [|done].
        apply Hn. by exists pid.
      + rewrite IH. split.
        * intros H m Hm. apply elem_of_cons in Hm as [->|Hm]; [by apply Hn|].
          by apply H.
        * intros H m Hm. apply H. by right. }
  repeat split; try done.
  - by eapply range_order_NoDup.
  - by apply range_order_elem.
  - by apply range_order_elem.
  - by eapply range_order_length.
Qed.

(** ** What each operation does to the registry and the process table *)

Section Frames.
Import Guardian.
Variable cfg : Config.
Variable kill : Z → option string.

Lemma service_insert_eq gg name v s :
  services gg = <[name := v]> s → service gg name = v.
Proof. unfold service. intros ->. by rewrite lookup_insert_eq. Qed.

Lemma service_insert_ne gg gg0 name n v :
  services gg = <[name := v]> (services gg0) → n ≠ name →
  service gg n = service gg0 n.
Proof. unfold service. intros -> ?. by rewrite lookup_insert_ne. Qed.

Lemma starts_writes (l : list Conn) line :
  starts ((λ conn, EvWriteMessage conn line) <$> l) = [].
Proof. by induction l. Qed.

Lemma AppendToLog_frame gg serviceName line gg' evs :
  AppendToLog cfg gg serviceName line = Some (gg', evs) →
  spawnTimeout gg' = spawnTimeout gg ∧
  registeredServices gg' = registeredServices gg ∧
  services gg' = services gg ∧
  serviceWebSockets gg' = serviceWebSockets gg ∧
  starts evs = [].
Proof.
  unfold AppendToLog. intros H.
  destruct (match serviceLogs gg !! serviceName with
            | Some l => Some l
            | None => FixedSizeLog.New (MaxLogLines cfg)
            end); simpl in H; [|done].
  simplify_eq. repeat split. apply starts_writes.
Qed.

Lemma waitWatcher_frame gg name location env ps gg' evs :
  waitWatcher cfg gg name location env ps = Some (gg', evs) →
  spawnTimeout gg' = spawnTimeout gg ∧
  registeredServices gg' = registeredServices gg ∧
  services gg' = <[name := None]> (services gg) ∧
  starts evs = [].
Proof.
  unfold waitWatcher. intros H.
  destruct (exec.WaitError ps) as [e|]; [|by simplify_eq].
  destruct (negb (e =? "signal: killed")%string); [|by simplify_eq].
  destruct (AppendToLog cfg _ name _) as [[gg2 evs2]|] eqn:Happ;
    simpl in H; [|done].
  apply AppendToLog_frame in Happ as (Ht & Hr & Hs & _ & He).
  simplify_eq. by rewrite Ht, Hr, Hs.
Qed.

(** The command that [spawnProcess] hands back was started, at the given
    location and with the given environment; the process table is as
    before or, if the watcher has run, cleared at [name]. *)
Lemma spawnProcess_frame gg name location env timeout o gg' r evs :
  spawnProcess cfg gg name location env timeout o = Some (gg', r, evs) →
  spawnTimeout gg' = spawnTimeout gg ∧
  registeredServices gg' = registeredServices gg ∧
  (services gg' = services gg ∨
   services gg' = <[name := None]> (services gg)) ∧
  (∀ p, r = inl p →
     is_Some (exec.Process p) ∧ exec.Path p = location ∧ exec.Env p = env ∧
     exec.ProcessState p = graceFate o ∧ starts evs = [(location, env)]).
Proof.
  unfold spawnProcess. intros H.
  assert (∀ e : string, spawnTimeout gg = spawnTimeout gg ∧
            registeredServices gg = registeredServices gg ∧
            (services gg = services gg ∨
             services gg = <[name := None]> (services gg)) ∧
            (∀ p, inr e = inl p →
               is_Some (exec.Process p) ∧ exec.Path p = location ∧
               exec.Env p = env ∧ exec.ProcessState p = graceFate o ∧
               starts evs = [(location, env)])) as Hfail.
  { intros e. repeat split; auto; discriminate. }
  destruct (stdoutPipe o); [simplify_eq; by apply Hfail|].
  destruct (stderrPipe o); [simplify_eq; by apply Hfail|].
  destruct (start o) as [e|pid]; [simplify_eq; by apply Hfail|].
  clear Hfail.
  destruct (graceFate o) as [ps|] eqn:Hfate; simpl in H.
  - destruct (waitWatcher cfg gg name location env ps) as [[gg1 evs1]|]
      eqn:Hw; simpl in H; [|done].
    apply waitWatcher_frame in Hw as (Ht & Hr & Hs & He).
    destruct timeout as [d|]; simpl in H; [|done].
    destruct (os.Exited ps); simplify_eq; (split; [|split; [|split]]);
      auto; try done.
    intros p [= <-]. simpl. rewrite He. eauto 10.
  - destruct timeout as [d|]; simpl in H; [|done].
    simplify_eq. (split; [|split; [|split]]); auto.
    intros p [= <-]. simpl. eauto 10.
Qed.
End Frames.

Section Invariants.
Import Guardian.
Variable cfg : Config.
Variable kill : Z → option string.

(** A start either fails and leaves the table as it was (or cleared at
    [name] by the watcher), or installs a started command built from the
    registered settings. *)
Lemma startServiceInternal_frame gg name env o err gg' evs :
  startServiceInternal cfg gg name env o = Some (err, gg', evs) →
  spawnTimeout gg' = spawnTimeout gg ∧
  registeredServices gg' = registeredServices gg ∧
  match err with
  | Some _ =>
      services gg' = services gg ∨
      services gg' = <[name := None]> (services gg)
  | None =>
      ∃ ss p,
        registeredServices gg !! name = Some ss ∧
        services gg' = <[name := Some p]> (services gg) ∧
        is_Some (exec.Process p) ∧
        exec.Path p = serviceSettings.execName ss ∧
        exec.Env p = serviceSettings.env ss ∧
        exec.ProcessState p = graceFate o ∧
        starts evs = [(serviceSettings.execName ss, serviceSettings.env ss)]
  end.
Proof.
  unfold startServiceInternal. intros H.
  destruct (registeredServices gg !! name) as [ss|] eqn:Hss;
    [|simplify_eq; by auto].
  destruct (service gg name); [simplify_eq; by auto|].
  destruct (checkTimeout gg); [simplify_eq; by auto|].
  destruct (spawnProcess cfg gg name _ _ _ o) as [[[gg1 r] evs1]|] eqn:Hsp;
    simpl in H; [|done].
  apply spawnProcess_frame in Hsp as (Ht & Hr & Hs & Hp).
  destruct r as [p|e]; simplify_eq; simpl; (split; [|split]); auto.
  destruct (Hp p eq_refl) as (Hproc & Hpath & Henv & Hst & Hev).
  exists ss, p. repeat split; auto.
  - destruct Hs as [-> | ->]; [done|]. by rewrite insert_insert_eq.
  - unfold starts in *. rewrite omap_app, Hev. done.
Qed.

Lemma records_ok_step gg gg' :
  records_ok gg →
  registeredServices gg' = registeredServices gg →
  (∀ n c, service gg' n = Some c →
     service gg n = Some c ∨
     (is_Some (exec.Process c) ∧ is_Some (registeredServices gg !! n))) →
  records_ok gg'.
Proof.
  intros Hok Hr Hs n c Hc. rewrite Hr.
  destruct (Hs n c Hc) as [Hold|?]; [by apply Hok|done].
Qed.

Lemma service_cleared gg gg' name n c :
  services gg' = <[name := None]> (services gg) →
  service gg' n = Some c → service gg n = Some c.
Proof.
  intros Hs. destruct (decide (n = name)) as [->|Hne].
  - by rewrite (service_insert_eq _ _ _ _ Hs).
  - by rewrite (service_insert_ne _ _ _ _ _ Hs Hne).
Qed.

Lemma startServiceInternal_records_ok gg name env o err gg' evs :
  records_ok gg →
  startServiceInternal cfg gg name env o = Some (err, gg', evs) →
  records_ok gg'.
Proof.
  intros Hok H. apply startServiceInternal_frame in H as (_ & Hr & Hs).
  apply (records_ok_step gg); [done..|]. intros n c Hc.
  destruct err as [e|].
  - left. destruct Hs as [Hs|Hs]; [unfold service in *; by rewrite <- Hs|].
    by eapply service_cleared.
  - destruct Hs as (ss & p & Hss & Hs & Hproc & _).
    destruct (decide (n = name)) as [->|Hne].
    + rewrite (service_insert_eq _ _ _ _ Hs) in Hc. simplify_eq. eauto.
    + left. by rewrite <- (service_insert_ne _ _ _ _ _ Hs Hne).
Qed.

Lemma startLoop_records_ok order : ∀ gg env o result final gg' evs,
  records_ok gg →
  startLoop cfg gg order env o result = Some (final, gg', evs) →
  records_ok gg'.
Proof.
  induction order as [|n rest IH]; intros gg env o result final gg' evs Hok H;
    simpl in H; [by simplify_eq|].
  destruct (startServiceInternal cfg gg n env (o n)) as [[[err gg1] evs1]|]
    eqn:H1; simpl in H; [|done].
  destruct (startLoop cfg gg1 rest env o _) as [[[f gg2] evs2]|] eqn:H2;
    simpl in H; [|done].
  simplify_eq. eapply IH; [|exact H2].
  by eapply startServiceInternal_records_ok.
Qed.

Lemma step_records_ok gg op gg' evs :
  records_ok gg → step cfg kill gg op = Some (gg', evs) → records_ok gg'.
Proof.
  intros Hok H. destruct op; simpl in H.
  - (* RegisterService *)
    unfold RegisterService in H. simplify_eq. intros n c Hc. simpl.
    destruct (decide (n = name)) as [->|Hne].
    + unfold service in Hc. simpl in Hc. by rewrite lookup_insert_eq in Hc.
    + unfold service in Hc. simpl in Hc.
      rewrite lookup_insert_ne in Hc by done.
      rewrite lookup_insert_ne by done. by apply Hok.
  - by simplify_eq.
  - unfold StartService in H. destruct (isAll name).
    + destruct (startLoop cfg gg order env o []) as [[[f gg1] evs1]|] eqn:H1;
        [|done].
      simplify_eq. by eapply startLoop_records_ok.
    + destruct (startServiceInternal cfg gg name env (o name))
        as [[[err gg1] evs1]|] eqn:H1; [|done].
      simplify_eq. by eapply startServiceInternal_records_ok.
  - destruct (StopService kill gg name order) as [[? ?]|]; by simplify_eq.
  - unfold AddLogClient in H. destruct upgrade; by simplify_eq.
  - apply AppendToLog_frame in H as (_ & Hr & Hs & _).
    apply (records_ok_step gg); [done..|]. intros n c Hc. left.
    unfold service in *. by rewrite <- Hs.
  - apply waitWatcher_frame in H as (_ & Hr & Hs & _).
    apply (records_ok_step gg); [done..|]. intros n c Hc. left.
    by eapply service_cleared.
Qed.

Lemma run_records_ok ops : ∀ gg gg' evs,
  records_ok gg → run cfg kill gg ops = Some (gg', evs) → records_ok gg'.
Proof.
  induction ops as [|op rest IH]; intros gg gg' evs Hok H; simpl in H;
    [by simplify_eq|].
  destruct (step cfg kill gg op) as [[gg1 evs1]|] eqn:H1; simpl in H; [|done].
  destruct (run cfg kill gg1 rest) as [[gg2 evs2]|] eqn:H2; simpl in H;
    [|done].
  simplify_eq. eapply IH; [|exact H2]. by eapply step_records_ok.
Qed.

Lemma New_records_ok : records_ok New.
Proof. intros n c Hc. unfold service in Hc. simpl in Hc. done. Qed.

(** Every guardian reached from [New] keeps only started commands of
    registered services in its table. *)
Lemma reachable_records_ok ops gg evs :
  run cfg kill New ops = Some (gg, evs) → records_ok gg.
Proof. apply run_records_ok, New_records_ok. Qed.
End Invariants.


(** ** Bulk stop on the example guardian *)

Lemma examples_running_ok : Guardian.records_ok Examples.workerRunning.
Proof.
  exact (reachable_records_ok _ _ _ _ _ examples_run_running).
Qed.

Lemma examples_running_order :
  range_order (Guardian.registeredServices Examples.workerRunning) ["worker"].
Proof. vm_compute. reflexivity. Qed.

Lemma examples_running_size :
  size (Guardian.registeredServices Examples.workerRunning) = 1%nat.
Proof. vm_compute. reflexivity. Qed.

Lemma examples_running_stop_all :
  Guardian.StopService Examples.killOk Examples.workerRunning "all" ["worker"]
  = Some (None, [EvKill 42]).
Proof. vm_compute. reflexivity. Qed.

Lemma examples_run_api :
  Guardian.run Examples.cfg Examples.killOk Guardian.New Examples.startApi
  = Some (Examples.apiRunning, Examples.startApiEvents).
Proof. vm_compute. reflexivity. Qed.

Lemma examples_api_ok : Guardian.records_ok Examples.apiRunning.
Proof. exact (reachable_records_ok _ _ _ _ _ examples_run_api). Qed.

Lemma examples_api_order :
  range_order (Guardian.registeredServices Examples.apiRunning) ["api"; "db"].
Proof.
  unfold range_order.
  apply (bool_decide_unpack _ (dec:=Permutation_dec _ _)).
  vm_compute. reflexivity.
Qed.

(** Two registered services (N = 2) of which [api] is running (K = 1) and
    its kill is refused by the OS: the sweep visits both, sends one kill,
    and the aggregate holds the refusal and the "not running" failure. *)
Lemma StopService_all_outcomes_witness :
  isAll "all" = true ∧
  ∃ err evs,
    Guardian.StopService Examples.killRefused7 Examples.apiRunning "all"
      ["api"; "db"] = Some (err, evs) ∧
    err = ErrorOrNil (omap (Guardian.stopFailure Examples.killRefused7
                              Examples.apiRunning) ["api"; "db"]) ∧
    (err = None ↔
     ∀ n, n ∈ ["api"; "db"] →
       ∃ pid, Guardian.runningPid Examples.apiRunning n = Some pid ∧
              Examples.killRefused7 pid = None) ∧
    NoDup ["api"; "db"] ∧
    (∀ n, n ∈ ["api"; "db"] ↔
          is_Some (Guardian.registeredServices Examples.apiRunning !! n)) ∧
    length ["api"; "db"]
    = size (Guardian.registeredServices Examples.apiRunning) ∧
    kills evs = omap (Guardian.runningPid Examples.apiRunning) ["api"; "db"] ∧
    aggregated err
    = omap (Guardian.stopFailure Examples.killRefused7 Examples.apiRunning)
           ["api"; "db"] ∧
    length (kills evs)
    = length (filter (Guardian.isRunning Examples.apiRunning) ["api"; "db"]) ∧
    (length (aggregated err)
     = length ["api"; "db"]
       - length (filter (Guardian.isRunning Examples.apiRunning) ["api"; "db"])
       + length (filter (Guardian.killFails Examples.killRefused7
                           Examples.apiRunning) ["api"; "db"]))%nat.
Proof.
  split; [reflexivity|].
  exact (StopService_all_outcomes Examples.killRefused7 Examples.apiRunning
           "all" ["api"; "db"] eq_refl examples_api_order examples_api_ok).
Defined.

(** The same sweep evaluated: with the kill refused both services are in
    the aggregate; with the kill accepted only the one that was not
    running is. *)
Example StopService_all_two :
  (λ r, (r.1, kills r.2)) <$>
    Guardian.StopService Examples.killRefused7 Examples.apiRunning "all"
      ["api"; "db"]
  = Some (Some (multiError
            ["error stopping service api: couldn't kill service, error was: operation not permitted";
             "error stopping service db: service is not running so can not stop"]),
          [7]) ∧
  (λ r, (r.1, kills r.2)) <$>
    Guardian.StopService Examples.killOk Examples.apiRunning "all"
      ["api"; "db"]
  = Some (Some (multiError
            ["error stopping service db: service is not running so can not stop"]),
          [7]).
Proof. vm_compute. split; reflexivity. Qed.

(** The sweep of the earlier snapshot, for comparison: every service gets
    a "not running" entry, and a running one an entry for its kill as
    well, whether the kill succeeded or not. *)
Lemma Part000_StopAll_entries (kill : Z → option string)
    (gg : Part000.GladiusGuardian) (order : list string) :
  (∀ n c, Part000.service gg n = Some c → is_Some (exec.Process c)) →
  aggregated <$> (fst <$> Part000.StopAll kill gg order)
  = Some (mjoin (Part000.stopAllEntries kill gg <$> order)).
Proof.
  intros Hok. unfold Part000.StopAll.
  assert (∀ result, ∃ evs,
            Part000.stopAllLoop kill gg order result
            = Some (result ++ mjoin (Part000.stopAllEntries kill gg <$> order),
                    evs)) as Hloop.
  { induction order as [|n rest IH]; intros result; simpl.
    - exists []. by rewrite app_nil_r.
    - unfold Part000.stopAllEntries at 1.
      destruct (Part000.service gg n) as [c|] eqn:Hc; simpl.
      + destruct (Hok n c Hc) as [proc Hproc]. rewrite Hproc. simpl.
        edestruct IH as [evs ->]. simpl. eexists.
        by rewrite <- !app_assoc.
      + edestruct IH as [evs ->]. simpl. eexists.
        by rewrite <- !app_assoc. }
  destruct (Hloop []) as [evs ->]. simpl.
  set (l := mjoin (Part000.stopAllEntries kill gg <$> order)).
  rewrite <- (aggregated_ErrorOrNil l) at 2.
  by destruct (ErrorOrNil l).
Qed.

(** C1 as stated fails: one registered service (N = 1) that is running
    (K = 1) and whose kill succeeds. The sweep returns nil, so the aggregate
    references no service at all, not all N. *)
Lemma StopService_all_omits_successful_kills :
  size (Guardian.registeredServices Examples.workerRunning) = 1%nat ∧
  Guardian.isRunning Examples.workerRunning "worker" = true ∧
  Guardian.StopService Examples.killOk Examples.workerRunning "all" ["worker"]
  = Some (None, [EvKill 42]) ∧
  ¬ (∀ kill gg name order,
       isAll name = true →
       range_order (Guardian.registeredServices gg) order →
       Guardian.records_ok gg →
       ∃ err evs,
         Guardian.StopService kill gg name order = Some (err, evs) ∧
         length (aggregated err) = size (Guardian.registeredServices gg)).
Proof.
  split; [exact examples_running_size|].
  split; [vm_compute; reflexivity|].
  split; [exact examples_running_stop_all|].
  intros Hclaim.
  pose proof (Hclaim Examples.killOk Examples.workerRunning "all" ["worker"]
                eq_refl examples_running_order examples_running_ok) as H.
  destruct H as (err & evs & Hrun & Hlen).
  rewrite examples_running_stop_all in Hrun.
  rewrite examples_running_size in Hlen.
  injection Hrun as <- <-. simpl in Hlen. discriminate.
Qed.

(** ** Starting before a timeout was set *)

Section NoTimeout.
Import Guardian.
Variable cfg : Config.
Variable kill : Z → option string.

Lemma startServiceInternal_idle gg name env o :
  idle gg →
  startServiceInternal cfg gg name env o
  = Some (Some (match registeredServices gg !! name with
                | Some _ =>
                    "spawn timeout not set, please set it before a process is spawned"
                | None => "attempted to start unregistered service"
                end), gg, []).
Proof.
  intros [Ht Hs]. unfold startServiceInternal, checkTimeout.
  destruct (registeredServices gg !! name); [|done].
  by rewrite Hs, Ht.
Qed.

Lemma startLoop_idle gg env o order : ∀ result,
  idle gg →
  ∃ final, startLoop cfg gg order env o result = Some (final, gg, []).
Proof.
  induction order as [|n rest IH]; intros result Hidle; simpl; [eauto|].
  rewrite startServiceInternal_idle by done. simpl.
  edestruct IH as [final ->]; [done|]. simpl. eauto.
Qed.

Lemma startLoop_idle_registered gg env o order : ∀ result,
  idle gg →
  (∀ n, n ∈ order → is_Some (registeredServices gg !! n)) →
  startLoop cfg gg order env o result
  = Some (result ++
          ((λ n, startError n
              "spawn timeout not set, please set it before a process is spawned")
             <$> order), gg, []).
Proof.
  induction order as [|n rest IH]; intros result Hidle Hreg; simpl.
  - by rewrite app_nil_r.
  - rewrite startServiceInternal_idle by done.
    destruct (Hreg n) as [ss ->]; [left|]. simpl.
    rewrite IH; [|done|intros; apply Hreg; by right]. simpl.
    by rewrite <- app_assoc.
Qed.

Lemma idle_cleared gg gg' name :
  idle gg →
  spawnTimeout gg' = spawnTimeout gg →
  services gg' = <[name := None]> (services gg) →
  idle gg'.
Proof.
  intros [Ht Hs] Ht' Hs'. split; [congruence|]. intros n.
  destruct (service gg' n) as [c|] eqn:Hc; [|done].
  apply (service_cleared gg gg' name n c Hs') in Hc. by rewrite Hs in Hc.
Qed.

Lemma step_idle gg op gg' evs :
  idle gg → isSetTimeout op = false →
  step cfg kill gg op = Some (gg', evs) → idle gg'.
Proof.
  intros Hidle Hop H. destruct op; simpl in H; try done.
  - unfold RegisterService in H. injection H as <- <-.
    by apply (idle_cleared gg _ name).
  - unfold StartService in H. destruct (isAll name).
    + destruct (startLoop_idle gg env o order [] Hidle) as [final Hl].
      rewrite Hl in H. by injection H as <- <-.
    + rewrite startServiceInternal_idle in H by done.
      by injection H as <- <-.
  - destruct (StopService kill gg name order) as [[? ?]|]; [|done].
    by injection H as <- <-.
  - unfold AddLogClient in H. destruct upgrade; by injection H as <- <-.
  - apply AppendToLog_frame in H as (Ht & _ & Hs & _).
    destruct Hidle as [Ht0 Hs0]. split; [congruence|].
    intros n. unfold service in *. rewrite Hs. apply Hs0.
  - apply waitWatcher_frame in H as (Ht & _ & Hs & _).
    by eapply idle_cleared.
Qed.

Lemma run_idle ops : ∀ gg gg' evs,
  idle gg → forallb (λ op, negb (isSetTimeout op)) ops = true →
  run cfg kill gg ops = Some (gg', evs) → idle gg'.
Proof.
  induction ops as [|op rest IH]; intros gg gg' evs Hidle Hops H;
    simpl in H; [by injection H as <- <-|].
  simpl in Hops. apply andb_true_iff in Hops as [Hop Hrest].
  apply negb_true_iff in Hop.
  destruct (step cfg kill gg op) as [[gg1 evs1]|] eqn:H1; simpl in H; [|done].
  destruct (run cfg kill gg1 rest) as [[gg2 evs2]|] eqn:H2; simpl in H;
    [|done].
  injection H as <- <-. eapply IH; [|done|exact H2]. by eapply step_idle.
Qed.

Lemma New_idle : idle New.
Proof. split; [done|]. intros n. unfold service. simpl. done. Qed.
End NoTimeout.

(** C6: in every guardian reached from [New] without a [SetTimeout], a
    start of any registered service fails with the configuration error,
    issues no OS call at all (no process is spawned) and leaves the guardian,
    and with it the process table, as it was. Under the "all" or empty
    sentinel the same error is reported once for every registered service. *)
Theorem StartService_without_timeout (cfg : Config) (kill : Z → option string)
    (ops : list Guardian.Op) (gg : Guardian.GladiusGuardian)
    (evs0 : list Event) (name : string) (env order : list string)
    (o : string → SpawnOracle) :
  forallb (λ op, negb (Guardian.isSetTimeout op)) ops = true →
  Guardian.run cfg kill Guardian.New ops = Some (gg, evs0) →
  is_Some (Guardian.registeredServices gg !! name) →
  range_order (Guardian.registeredServices gg) order →
  Guardian.checkTimeout gg
  = Some "spawn timeout not set, please set it before a process is spawned" ∧
  Guardian.startServiceInternal cfg gg name env (o name)
  = Some (Some "spawn timeout not set, please set it before a process is spawned",
          gg, []) ∧
  Guardian.StartService cfg gg name env order o
  = Some (Some (if isAll name
                then multiError
                       ((λ n, startError n
                          "spawn timeout not set, please set it before a process is spawned")
                          <$> order)
                else errorString
                       "spawn timeout not set, please set it before a process is spawned"),
          gg, []) ∧
  (∀ n, Guardian.service gg n = None).
Proof.
  intros Hops Hrun [ss Hss] Hord.
  assert (Guardian.idle gg) as Hidle
    by (eapply run_idle; [apply New_idle|done..]).
  destruct Hidle as [Ht Hs].
  split; [unfold Guardian.checkTimeout; by rewrite Ht|].
  split; [rewrite startServiceInternal_idle by done; by rewrite Hss|].
  split; [|done].
  unfold Guardian.StartService. destruct (isAll name).
  - rewrite startLoop_idle_registered; [|done|].
    + simpl. assert (name ∈ order) as Hin
        by (apply (range_order_elem _ _ _ Hord); eauto).
      destruct order; [by apply elem_of_nil in Hin|done].
    + intros n Hn. by apply (range_order_elem _ _ _ Hord).
  - rewrite startServiceInternal_idle by done. by rewrite Hss.
Qed.

Lemma StartService_without_timeout_witness :
  Guardian.StartService Examples.cfg Examples.workerRegistered "worker" []
    ["worker"] (λ _, Examples.stillRunning 42)
  = Some (Some (errorString
                  "spawn timeout not set, please set it before a process is spawned"),
          Examples.workerRegistered, []).
Proof.
  refine (proj1 (proj2 (proj2
    (StartService_without_timeout Examples.cfg Examples.killOk
       Examples.registerWorker Examples.workerRegistered _ "worker" []
       ["worker"] (λ _, Examples.stillRunning 42) _ _ _ _)))).
  - reflexivity.
  - exact examples_run_registered.
  - vm_compute. eauto.
  - vm_compute. reflexivity.
Defined.

(** ** Status queries *)

Section Status.
Import Guardian.

Lemma newServiceStatus_absent :
  newServiceStatus None
  = Some {| serviceStatus.Running := false; serviceStatus.PID := 0;
            serviceStatus.Env := []; serviceStatus.Location := "" |}.
Proof. reflexivity. Qed.

(** A status that is not running carries zero values only. *)
Lemma newServiceStatus_not_running p st :
  newServiceStatus p = Some st →
  serviceStatus.Running st = false →
  serviceStatus.PID st = 0 ∧ serviceStatus.Env st = [] ∧
  serviceStatus.Location st = "".
Proof.
  destruct p as [c|]; simpl.
  - destruct (exec.Process c); simpl; [|done]. by intros [= <-].
  - by intros [= <-].
Qed.

Lemma newServiceStatus_total gg n :
  records_ok gg → is_Some (newServiceStatus (service gg n)).
Proof.
  intros Hok. destruct (service gg n) as [c|] eqn:Hc; [|by eexists].
  destruct (Hok n c Hc) as [[proc Hproc] _]. simpl. rewrite Hproc. by eexists.
Qed.

Lemma statusLoop_total gg order : ∀ acc,
  records_ok gg →
  ∃ m, statusLoop gg order acc = Some m ∧
    ∀ n, m !! n = if decide (n ∈ order)
                  then newServiceStatus (service gg n)
                  else acc !! n.
Proof.
  induction order as [|k rest IH]; intros acc Hok; cbn [statusLoop].
  - exists acc. split; [done|]. intros n. case_decide; [set_solver|done].
  - destruct (newServiceStatus_total gg k Hok) as [st Hst]. rewrite Hst.
    cbn [mbind option_bind].
    destruct (IH (<[k := st]> acc) Hok) as (m & -> & Hm).
    exists m. split; [done|]. intros n. rewrite Hm.
    destruct (decide (n ∈ rest)) as [Hin|Hnin].
    + case_decide; [done|set_solver].
    + destruct (decide (n = k)) as [->|Hne].
      * case_decide; [|set_solver]. by rewrite lookup_insert_eq.
      * destruct (decide (n ∈ k :: rest)) as [Hin|_];
          [apply elem_of_cons in Hin as [?|?]; done|].
        by rewrite lookup_insert_ne.
Qed.
End Status.

(** C8: on every guardian reached from [New], [GetServicesStatus] returns a
    mapping for any name, registered or not; every entry is the projection
    of the process record of its service; a single name yields exactly one
    entry, which for an unregistered name is the absent status; under the
    sentinel there is one entry per key of the process table; and an entry
    with [Running = false] has zero pid, environment and location. *)
Theorem GetServicesStatus_never_fails (cfg : Config) (kill : Z → option string)
    (ops : list Guardian.Op) (gg : Guardian.GladiusGuardian)
    (evs0 : list Event) (name : string) (order : list string) :
  Guardian.run cfg kill Guardian.New ops = Some (gg, evs0) →
  range_order (Guardian.services gg) order →
  ∃ m,
    Guardian.GetServicesStatus gg name order = Some m ∧
    (∀ n st, m !! n = Some st →
       Guardian.newServiceStatus (Guardian.service gg n) = Some st) ∧
    (isAll name = false → ∃ st, m = {[name := st]}) ∧
    (isAll name = false → Guardian.registeredServices gg !! name = None →
       m = {[name := {| serviceStatus.Running := false;
                        serviceStatus.PID := 0;
                        serviceStatus.Env := [];
                        serviceStatus.Location := "" |}]}) ∧
    (isAll name = true →
       ∀ n, is_Some (m !! n) ↔ is_Some (Guardian.services gg !! n)) ∧
    (∀ n st, m !! n = Some st → serviceStatus.Running st = false →
       serviceStatus.PID st = 0 ∧ serviceStatus.Env st = [] ∧
       serviceStatus.Location st = "").
Proof.
  intros Hrun Hord. pose proof (reachable_records_ok _ _ _ _ _ Hrun) as Hok.
  unfold Guardian.GetServicesStatus.
  assert (∀ m : gmap string serviceStatus.t,
            (∀ n st, m !! n = Some st →
               Guardian.newServiceStatus (Guardian.service gg n) = Some st) →
            ∀ n st, m !! n = Some st → serviceStatus.Running st = false →
              serviceStatus.PID st = 0 ∧ serviceStatus.Env st = [] ∧
              serviceStatus.Location st = "") as Hzero.
  { intros m Hm n st Hn. by eapply newServiceStatus_not_running, Hm. }
  destruct (isAll name) eqn:Hall.
  - destruct (statusLoop_total gg order ∅ Hok) as (m & -> & Hm).
    assert (∀ n st, m !! n = Some st →
              Guardian.newServiceStatus (Guardian.service gg n) = Some st)
      as Hproj.
    { intros n st. rewrite Hm. destruct (decide (n ∈ order)); [done|].
      by rewrite lookup_empty. }
    exists m. split; [done|]. split; [done|]. split; [done|].
    split; [done|]. split; [|by apply Hzero].
    intros _ n. rewrite Hm, <- (range_order_elem _ _ n Hord).
    destruct (decide (n ∈ order)) as [Hin|Hnin].
    + split; [done|]. intros _. by apply newServiceStatus_total.
    + rewrite lookup_empty. split; [by intros [? ?]|done].
  - destruct (newServiceStatus_total gg name Hok) as [st Hst].
    rewrite Hst. simpl.
    assert (∀ n st', (<[name := st]> ∅ : gmap string serviceStatus.t) !! n
                     = Some st' →
              Guardian.newServiceStatus (Guardian.service gg n) = Some st')
      as Hproj.
    { intros n st' Hn. destruct (decide (n = name)) as [->|Hne].
      - rewrite lookup_insert_eq in Hn. congruence.
      - by rewrite lookup_insert_ne, lookup_empty in Hn. }
    eexists. split; [done|]. split; [done|]. split; [eauto|].
    split; [|split; [done|by apply Hzero]].
    intros _ Hunreg.
    destruct (Guardian.service gg name) as [c|] eqn:Hc.
    + destruct (Hok name c Hc) as [_ [? ?]]. congruence.
    + simpl in Hst. by injection Hst as <-.
Qed.

Lemma examples_running_services_order :
  range_order (Guardian.services Examples.workerRunning) ["worker"].
Proof. vm_compute. reflexivity. Qed.

(** A status query for a name that was never registered, on a guardian
    with one running service. *)
Lemma GetServicesStatus_never_fails_witness :
  ∃ m,
    Guardian.GetServicesStatus Examples.workerRunning "ghost" ["worker"]
    = Some m ∧
    (∀ n st, m !! n = Some st →
       Guardian.newServiceStatus (Guardian.service Examples.workerRunning n)
       = Some st) ∧
    (isAll "ghost" = false → ∃ st, m = {["ghost" := st]}) ∧
    (isAll "ghost" = false →
     Guardian.registeredServices Examples.workerRunning !! "ghost" = None →
       m = {["ghost" := {| serviceStatus.Running := false;
                           serviceStatus.PID := 0;
                           serviceStatus.Env := [];
                           serviceStatus.Location := "" |}]}) ∧
    (isAll "ghost" = true →
       ∀ n, is_Some (m !! n) ↔
            is_Some (Guardian.services Examples.workerRunning !! n)) ∧
    (∀ n st, m !! n = Some st → serviceStatus.Running st = false →
       serviceStatus.PID st = 0 ∧ serviceStatus.Env st = [] ∧
       serviceStatus.Location st = "").
Proof.
  exact (GetServicesStatus_never_fails Examples.cfg Examples.killOk
           Examples.startWorker Examples.workerRunning
           Examples.startWorkerEvents "ghost" ["worker"]
           examples_run_running examples_running_services_order).
Defined.

(** ** Registering a service again *)

(** What [RegisterService] does to the process table: the slot of [name] is
    set to nil whatever it held, every other slot is kept. *)
Lemma RegisterService_process_table (gg : Guardian.GladiusGuardian)
    (name execLocation : string) (env : list string) :
  Guardian.service (Guardian.RegisterService gg name execLocation env).1 name
  = None ∧
  ∀ n, n ≠ name →
    Guardian.service (Guardian.RegisterService gg name execLocation env).1 n
    = Guardian.service gg n.
Proof.
  unfold Guardian.service, Guardian.RegisterService. simpl. split.
  - by rewrite lookup_insert_eq.
  - intros n Hne. by rewrite lookup_insert_ne.
Qed.

(** C3 fails on the code: the worker is running (its slot holds the started
    command with pid 42); registering it again, with the very same
    settings, sets the slot to nil. The process is still alive but the
    guardian no longer knows it: the status reports it as not running and a
    stop is refused. *)
Theorem RegisterService_drops_running_record :
  Guardian.service Examples.workerRunning "worker" = Some Examples.workerCmd ∧
  (let gg' := (Guardian.RegisterService Examples.workerRunning "worker"
                 "/usr/bin/worker" ["A=1"]).1 in
   Guardian.service gg' "worker" = None ∧
   Guardian.registeredServices gg'
   = Guardian.registeredServices Examples.workerRunning ∧
   Guardian.GetServicesStatus gg' "worker" ["worker"]
   = Some {["worker" := {| serviceStatus.Running := false;
                           serviceStatus.PID := 0;
                           serviceStatus.Env := [];
                           serviceStatus.Location := "" |}]} ∧
   Guardian.StopService Examples.killOk gg' "worker" ["worker"]
   = Some (Some (errorString "service is not running so can not stop"), [])).
Proof. vm_compute. repeat split; reflexivity. Qed.

(** The earlier snapshot does the same. *)
Lemma Part000_RegisterService_process_table (gg : Part000.GladiusGuardian)
    (name execLocation : string) (env : list string) :
  Part000.service (Part000.RegisterService gg name execLocation env).1 name
  = None.
Proof.
  unfold Part000.service, Part000.RegisterService. simpl.
  by rewrite lookup_insert_eq.
Qed.

(** ** The environment of a started service *)

(** Whenever a start succeeds, the child was started once, at the registered
    location and with the registered environment, and that is the command
    installed in the process table; the environment passed by the caller
    does not occur. *)
Lemma startServiceInternal_environment (cfg : Config)
    (gg : Guardian.GladiusGuardian) (name : string) (env : list string)
    (o : SpawnOracle) (gg' : Guardian.GladiusGuardian) (evs : list Event) :
  Guardian.startServiceInternal cfg gg name env o = Some (None, gg', evs) →
  ∃ ss p,
    Guardian.registeredServices gg !! name = Some ss ∧
    Guardian.service gg' name = Some p ∧
    exec.Env p = serviceSettings.env ss ∧
    starts evs = [(serviceSettings.execName ss, serviceSettings.env ss)].
Proof.
  intros H. apply startServiceInternal_frame in H
    as (_ & _ & ss & p & Hss & Hs & _ & _ & Henv & _ & Hev).
  exists ss, p. repeat split; try done.
  by apply (service_insert_eq _ _ _ _ Hs).
Qed.

(** C4 fails on the code: the worker is registered with environment [A=1].
    Started with the caller's environment [B=2], the child gets [A=1]; only
    the debug line names [B=2]. Started with no environment, the child
    gets [A=1] again and the default environment of the configuration,
    [MODE=default], reaches the debug line only. *)
Theorem StartService_spawns_with_registered_env :
  Guardian.StartService Examples.cfg Examples.workerConfigured "worker"
    ["B=2"] ["worker"] (λ _, Examples.stillRunning 42)
  = Some (None, Examples.workerRunning,
          [EvStart "/usr/bin/worker" ["A=1"];
           EvSleep 50000000;
           EvLog "debug" "Started service"
             [("service_name", "worker"); ("exec_location", "/usr/bin/worker");
              ("environment_vars", "B=2")]]) ∧
  Guardian.StartService Examples.cfg Examples.workerConfigured "worker"
    [] ["worker"] (λ _, Examples.stillRunning 42)
  = Some (None, Examples.workerRunning,
          [EvStart "/usr/bin/worker" ["A=1"];
           EvSleep 50000000;
           EvLog "debug" "Started service"
             [("service_name", "worker"); ("exec_location", "/usr/bin/worker");
              ("environment_vars", "MODE=default")]]) ∧
  exec.Env <$> Guardian.service Examples.workerRunning "worker" = Some ["A=1"].
Proof. vm_compute. repeat split; reflexivity. Qed.

(** ** The termination watcher *)

Section Watcher.
Import Guardian.
Variable cfg : Config.
Hypothesis Hcap : 0 < MaxLogLines cfg.

(** With a positive capacity configured, [AppendToLog] appends to the
    buffer of the service, creating it first when there is none. *)
Lemma AppendToLog_positive gg serviceName line :
  ∃ b gg',
    AppendToLog cfg gg serviceName line
    = Some (gg', updateWebsocketLog gg serviceName line) ∧
    (serviceLogs gg !! serviceName = Some b ∨
     serviceLogs gg !! serviceName = None ∧
     FixedSizeLog.New (MaxLogLines cfg) = Some b) ∧
    serviceLogs gg'
    = <[serviceName := FixedSizeLog.Append b line]> (serviceLogs gg) ∧
    services gg' = services gg ∧
    registeredServices gg' = registeredServices gg ∧
    spawnTimeout gg' = spawnTimeout gg.
Proof.
  unfold AppendToLog.
  destruct (serviceLogs gg !! serviceName) as [b|] eqn:Hb; simpl.
  - exists b. eexists. repeat split; eauto.
  - unfold FixedSizeLog.New.
    destruct (MaxLogLines cfg <=? 0) eqn:Hle; [lia|]. simpl.
    eexists. eexists. repeat split; eauto.
Qed.

(** With a positive capacity configured the watcher runs to its end. *)
Lemma waitWatcher_total gg name location env ps :
  ∃ gg' evs,
    waitWatcher cfg gg name location env ps = Some (gg', evs) ∧
    spawnTimeout gg' = spawnTimeout gg ∧
    registeredServices gg' = registeredServices gg ∧
    services gg' = <[name := None]> (services gg).
Proof.
  destruct (waitWatcher cfg gg name location env ps) as [[gg' evs]|] eqn:H.
  - apply waitWatcher_frame in H as (? & ? & ? & _). eauto 10.
  - exfalso. unfold waitWatcher in H.
    destruct (exec.WaitError ps) as [e|]; [|done].
    destruct (negb _); [|done].
    destruct (AppendToLog_positive
                (set_services gg (<[name := None]> (services gg)))
                name ("Exiting... " +:+ e)) as (b & gg2 & Heq & _).
    rewrite Heq in H. done.
Qed.

End Watcher.




(** ** The inspection at the end of the grace period *)

Section Inspection.
Import Guardian.
Variable cfg : Config.

(** A child that has called exit before the sleep ends (and whose [Wait]
    has concluded): the spawn reports the early exit, the start hands the
    error on, and the slot of the service is nil afterwards. *)
Lemma startServiceInternal_exited_child gg name env o ss d pid code :
  0 < MaxLogLines cfg →
  registeredServices gg !! name = Some ss →
  service gg name = None →
  spawnTimeout gg = Some d →
  stdoutPipe o = None → stderrPipe o = None → start o = inr pid →
  graceFate o = Some (os.ExitStatus code) →
  ∃ gg' evs,
    startServiceInternal cfg gg name env o
    = Some (Some ("process " +:+ name +:+
                  " already exited, check the logs for errors"), gg', evs) ∧
    service gg' name = None ∧
    (∀ n, n ≠ name → service gg' n = service gg n).
Proof.
  intros Hcap Hss Hsvc Ht Hout Herr Hstart Hfate.
  unfold startServiceInternal, checkTimeout, spawnProcess.
  rewrite Hss, Hsvc, Ht, Hout, Herr, Hstart, Hfate.
  destruct (waitWatcher_total cfg Hcap gg name
              (serviceSettings.execName ss) (serviceSettings.env ss)
              (os.ExitStatus code)) as (gg1 & evs1 & -> & _ & _ & Hs).
  simpl. eexists. eexists. split; [done|]. split.
  - by apply (service_insert_eq _ _ _ _ Hs).
  - intros n Hne. by apply (service_insert_ne _ _ _ _ _ Hs).
Qed.

(** A child that is still running when the sleep ends: the later snapshot
    tests the process state for nil first and returns the command. *)
Lemma spawnProcess_running_child gg name location env d o pid :
  stdoutPipe o = None → stderrPipe o = None → start o = inr pid →
  graceFate o = None →
  spawnProcess cfg gg name location env (Some d) o
  = Some (gg,
          inl {| exec.Path := location; exec.Env := env;
                 exec.Process := Some {| os.Pid := pid |};
                 exec.ProcessState := None |},
          [EvStart location env; EvSleep d]).
Proof.
  intros Hout Herr Hstart Hfate. unfold spawnProcess.
  by rewrite Hout, Herr, Hstart, Hfate.
Qed.

(** The earlier snapshot calls [Exited] on the nil process state. *)
Lemma Part000_spawnProcess_running_child (gg : Part000.GladiusGuardian)
    name location env d o pid :
  stdoutPipe o = None → stderrPipe o = None → start o = inr pid →
  graceFate o = None →
  Part000.spawnProcess cfg gg name location env (Some d) o = None.
Proof.
  intros Hout Herr Hstart Hfate. unfold Part000.spawnProcess.
  by rewrite Hout, Herr, Hstart, Hfate.
Qed.
End Inspection.

(** C2 fails on the code: the worker dies of a segmentation fault during
    the grace period and [Wait] has concluded. [Exited] is false for a
    death by signal, so the spawn returns the command without an error, and
    the start installs it over the slot that the watcher has just cleared:
    the process table holds a record for a dead process. *)
Theorem StartService_installs_child_killed_by_signal :
  os.Exited (os.Signaled "segmentation fault") = false ∧
  (λ r, (r.1.1, Guardian.service r.1.2 "worker")) <$>
    Guardian.StartService Examples.cfg Examples.workerConfigured "worker" []
      ["worker"] (λ _, Examples.gone 42 (os.Signaled "segmentation fault"))
  = Some (None, Some Examples.crashedCmd) ∧
  (λ r, (r.1.1, Guardian.service r.1.2 "worker")) <$>
    Guardian.StartService Examples.cfg Examples.workerConfigured "worker" []
      ["worker"] (λ _, Examples.gone 42 (os.ExitStatus 1))
  = Some (Some (errorString
                  "process worker already exited, check the logs for errors"),
          None).
Proof. vm_compute. repeat split; reflexivity. Qed.

(** C10 fails on the earlier snapshot: the worker is alive when the sleep
    ends, so its process state is nil; [spawnProcess] there calls [Exited]
    through the nil pointer and the start panics. The later snapshot, on
    the same input, tests for nil and succeeds. *)
Theorem Part000_spawnProcess_dereferences_nil_state :
  graceFate (Examples.stillRunning 42) = None ∧
  Part000.spawnProcess Examples.cfg (erase Examples.workerConfigured) "worker"
    "/usr/bin/worker" ["A=1"] (Some 50000000) (Examples.stillRunning 42)
  = None ∧
  Part000.StartService Examples.cfg (erase Examples.workerConfigured) "worker"
    [] (Examples.stillRunning 42)
  = None ∧
  Guardian.spawnProcess Examples.cfg Examples.workerConfigured "worker"
    "/usr/bin/worker" ["A=1"] (Some 50000000) (Examples.stillRunning 42)
  = Some (Examples.workerConfigured, inl Examples.workerCmd,
          [EvStart "/usr/bin/worker" ["A=1"]; EvSleep 50000000]).
Proof. vm_compute. repeat split; reflexivity. Qed.

(** ** The bounded log buffer *)

Section Buffer.
Import FixedSizeLog.

(** Keeping the last [n] elements, before or after more are added. *)
Lemma window_app (n : nat) (xs ls : list string) :
  lastLines n (lastLines n xs ++ ls) = lastLines n (xs ++ ls).
Proof.
  unfold lastLines.
  destruct (decide (length xs ≤ n)%nat) as [Hle|Hgt].
  - by replace (length xs - n)%nat with 0%nat by lia.
  - rewrite !length_app, length_drop.
    replace (length xs - (length xs - n) + length ls - n)%nat
      with (length ls) by lia.
    rewrite <- (drop_app_le xs ls (length xs - n)) by lia.
    rewrite drop_drop. f_equal. lia.
Qed.

Lemma Append_capacity b line : capacity (Append b line) = capacity b.
Proof. unfold Append. by destruct (_ =? _). Qed.

Lemma AppendAll_capacity ls : ∀ b, capacity (AppendAll b ls) = capacity b.
Proof.
  induction ls as [|l ls IH]; intros b; [done|].
  unfold AppendAll in *. simpl. by rewrite IH, Append_capacity.
Qed.

(** One append on a buffer within its capacity keeps the last
    [capacity] lines. *)
Lemma Append_window b line :
  0 < capacity b →
  Z.of_nat (length (lines b)) ≤ capacity b →
  lines (Append b line)
  = lastLines (Z.to_nat (capacity b)) (lines b ++ [line]).
Proof.
  intros Hpos Hlen. unfold Append, lastLines. rewrite length_app. simpl.
  destruct (Z.eqb_spec (Z.of_nat (length (lines b))) (capacity b)) as [He|Hne];
    simpl.
  - replace (length (lines b) + 1 - Z.to_nat (capacity b))%nat with 1%nat
      by lia.
    destruct (lines b) as [|x xs]; [simpl in *; lia|done].
  - by replace (length (lines b) + 1 - Z.to_nat (capacity b))%nat with 0%nat
      by lia.
Qed.

Lemma AppendAll_window ls : ∀ b,
  0 < capacity b →
  Z.of_nat (length (lines b)) ≤ capacity b →
  lines (AppendAll b ls)
  = lastLines (Z.to_nat (capacity b)) (lines b ++ ls).
Proof.
  induction ls as [|l ls IH]; intros b Hpos Hlen.
  - unfold AppendAll, lastLines. simpl. rewrite app_nil_r.
    by replace (length (lines b) - Z.to_nat (capacity b))%nat with 0%nat
      by lia.
  - change (AppendAll b (l :: ls)) with (AppendAll (Append b l) ls).
    pose proof (Append_window b l Hpos Hlen) as Hw.
    rewrite IH; rewrite ?Append_capacity; [|done|].
    + rewrite Hw, window_app. by rewrite <- app_assoc.
    + rewrite Hw. unfold lastLines. rewrite length_drop, length_app.
      simpl. lia.
Qed.
End Buffer.

(** C7: a buffer of capacity N > 0 is created; after any appends its
    snapshot is never longer than N; after more than N appends the snapshot
    is exactly the last N lines appended, in arrival order; and an append
    to a full buffer drops the oldest line and puts the new one last. *)
Theorem FixedSizeLog_keeps_last_lines (N : Z) (ls : list string) :
  0 < N →
  ∃ b0,
    FixedSizeLog.New N = Some b0 ∧
    FixedSizeLog.Snapshot b0 = [] ∧
    (∀ pre,
       Z.of_nat (length (FixedSizeLog.Snapshot (FixedSizeLog.AppendAll b0 pre)))
       ≤ N) ∧
    (N < Z.of_nat (length ls) →
       FixedSizeLog.Snapshot (FixedSizeLog.AppendAll b0 ls)
       = drop (length ls - Z.to_nat N) ls ∧
       Z.of_nat (length (FixedSizeLog.Snapshot (FixedSizeLog.AppendAll b0 ls)))
       = N) ∧
    (∀ pre line,
       Z.of_nat (length (FixedSizeLog.Snapshot (FixedSizeLog.AppendAll b0 pre)))
       = N →
       FixedSizeLog.Snapshot
         (FixedSizeLog.Append (FixedSizeLog.AppendAll b0 pre) line)
       = tail (FixedSizeLog.Snapshot (FixedSizeLog.AppendAll b0 pre))
         ++ [line]).
Proof.
  intros Hpos. unfold FixedSizeLog.New.
  destruct (N <=? 0) eqn:Hle; [lia|].
  set (b0 := {| FixedSizeLog.capacity := N; FixedSizeLog.lines := [] |}).
  exists b0. split; [done|]. split; [done|].
  assert (∀ l, FixedSizeLog.Snapshot (FixedSizeLog.AppendAll b0 l)
               = drop (length l - Z.to_nat N) l) as Hwin.
  { intros l. unfold FixedSizeLog.Snapshot.
    rewrite AppendAll_window; simpl; [done|lia..]. }
  split; [|split].
  - intros pre. rewrite Hwin, length_drop. lia.
  - intros Hlong. rewrite Hwin, length_drop. split; [done|lia].
  - intros pre line Hfull. unfold FixedSizeLog.Snapshot in *.
    unfold FixedSizeLog.Append.
    rewrite AppendAll_capacity. simpl. rewrite Hfull, Z.eqb_refl. done.
Qed.

Lemma FixedSizeLog_keeps_last_lines_witness :
  ∃ b0,
    FixedSizeLog.New 2 = Some b0 ∧
    FixedSizeLog.Snapshot b0 = [] ∧
    (∀ pre,
       Z.of_nat (length (FixedSizeLog.Snapshot (FixedSizeLog.AppendAll b0 pre)))
       ≤ 2) ∧
    (2 < Z.of_nat (length ["a"; "b"; "c"]) →
       FixedSizeLog.Snapshot (FixedSizeLog.AppendAll b0 ["a"; "b"; "c"])
       = drop (length ["a"; "b"; "c"] - Z.to_nat 2) ["a"; "b"; "c"] ∧
       Z.of_nat (length (FixedSizeLog.Snapshot
                           (FixedSizeLog.AppendAll b0 ["a"; "b"; "c"])))
       = 2) ∧
    (∀ pre line,
       Z.of_nat (length (FixedSizeLog.Snapshot (FixedSizeLog.AppendAll b0 pre)))
       = 2 →
       FixedSizeLog.Snapshot
         (FixedSizeLog.Append (FixedSizeLog.AppendAll b0 pre) line)
       = tail (FixedSizeLog.Snapshot (FixedSizeLog.AppendAll b0 pre))
         ++ [line]).
Proof. apply (FixedSizeLog_keeps_last_lines 2 ["a"; "b"; "c"]). lia. Defined.

Example FixedSizeLog_three_into_two :
  FixedSizeLog.Snapshot <$>
    ((λ b, FixedSizeLog.AppendAll b ["a"; "b"; "c"]) <$> FixedSizeLog.New 2)
  = Some ["b"; "c"].
Proof. reflexivity. Qed.

(** ** The two snapshots compared *)

Section Snapshots.
Variable cfg : Config.
Variable kill : Z → option string.

Lemma erase_AppendToLog gg serviceName line :
  erase <$> (fst <$> Guardian.AppendToLog cfg gg serviceName line)
  = Part000.AppendToLog cfg (erase gg) serviceName line.
Proof.
  unfold Guardian.AppendToLog, Part000.AppendToLog, erase. simpl.
  destruct (Guardian.serviceLogs gg !! serviceName); simpl; [done|].
  by destruct (FixedSizeLog.New (MaxLogLines cfg)).
Qed.

Lemma erase_waitWatcher gg name location env ps :
  erase <$> (fst <$> Guardian.waitWatcher cfg gg name location env ps)
  = fst <$> Part000.waitWatcher cfg (erase gg) name location env ps.
Proof.
  unfold Guardian.waitWatcher, Part000.waitWatcher.
  destruct (exec.WaitError ps) as [e|]; [|done].
  destruct (negb _); [|done].
  pose proof (erase_AppendToLog
                (Guardian.set_services gg
                   (<[name := None]> (Guardian.services gg)))
                name ("Exiting... " +:+ e)) as H.
  change (erase (Guardian.set_services gg
                   (<[name := None]> (Guardian.services gg))))
    with (Part000.set_services (erase gg)
            (<[name := None]> (Part000.services (erase gg)))) in H.
  rewrite <- H.
  by destruct (Guardian.AppendToLog cfg _ name _) as [[gg2 evs2]|].
Qed.

Lemma erase_spawnProcess gg name location env timeout o :
  childStillRunning o = false →
  (λ r, (erase r.1.1, r.1.2)) <$>
    Guardian.spawnProcess cfg gg name location env timeout o
  = (λ r, (r.1.1, r.1.2)) <$>
      Part000.spawnProcess cfg (erase gg) name location env timeout o.
Proof.
  unfold childStillRunning, Guardian.spawnProcess, Part000.spawnProcess.
  intros Hrun.
  destruct (stdoutPipe o); [done|].
  destruct (stderrPipe o); [done|].
  destruct (start o) as [e|pid]; [done|].
  destruct (graceFate o) as [ps|]; [clear Hrun|done].
  pose proof (erase_waitWatcher gg name location env ps) as H.
  destruct (Guardian.waitWatcher cfg gg name location env ps)
    as [[gg1 evs1]|];
    destruct (Part000.waitWatcher cfg (erase gg) name location env ps)
      as [[gg1' evs1']|]; simpl in H; try done.
  injection H as <-. simpl.
  destruct timeout as [d|]; simpl; [|done].
  by destruct (os.Exited ps).
Qed.

Lemma erase_startService gg name env o :
  childStillRunning o = false →
  (λ r, (r.1.1, erase r.1.2)) <$>
    Guardian.startServiceInternal cfg gg name env o
  = (λ r, (r.1.1, r.1.2)) <$>
      Part000.StartService cfg (erase gg) name env o.
Proof.
  intros Hrun.
  unfold Guardian.startServiceInternal, Part000.StartService.
  change (Part000.registeredServices (erase gg))
    with (Guardian.registeredServices gg).
  change (Part000.service (erase gg) name) with (Guardian.service gg name).
  change (Part000.checkTimeout (erase gg)) with (Guardian.checkTimeout gg).
  change (Part000.spawnTimeout (erase gg)) with (Guardian.spawnTimeout gg).
  destruct (Guardian.registeredServices gg !! name) as [ss|]; [|done].
  destruct (Guardian.service gg name); [done|].
  destruct (Guardian.checkTimeout gg); [done|].
  pose proof (erase_spawnProcess gg name (serviceSettings.execName ss)
                (serviceSettings.env ss) (Guardian.spawnTimeout gg) o Hrun)
    as H.
  destruct (Guardian.spawnProcess cfg gg name _ _ _ o) as [[[gg1 r] evs]|];
    destruct (Part000.spawnProcess cfg (erase gg) name _ _ _ o)
      as [[[gg1' r'] evs']|]; simpl in H; try done.
  injection H as <- <-. simpl. by destruct r.
Qed.

Lemma erase_statusLoop gg order : ∀ acc,
  Guardian.statusLoop gg order acc = Part000.statusLoop (erase gg) order acc.
Proof.
  induction order as [|k rest IH]; intros acc; [done|]. simpl.
  change (Part000.service (erase gg) k) with (Guardian.service gg k).
  change (Part000.newServiceStatus (Guardian.service gg k))
    with (Guardian.newServiceStatus (Guardian.service gg k)).
  destruct (Guardian.newServiceStatus (Guardian.service gg k)); simpl;
    [apply IH|done].
Qed.
End Snapshots.

(** C9, as the code has it: the two snapshots agree, on the state they
    share, in set-timeout, the timeout guard, the status projection, the
    status of all services, register, the stop of one service, the buffer
    side of append-to-log, the watcher, and the start of one service
    unless the child is still running when the sleep ends. (They differ in
    that last case, in the bulk stop and in what a log subscriber gets;
    status by name and bulk start exist in the later snapshot only.) *)
Theorem snapshots_agree_on_shared_operations (cfg : Config)
    (kill : Z → option string) (gg : Guardian.GladiusGuardian)
    (name : string) (env order : list string) (o : string → SpawnOracle) :
  (∀ t, erase (Guardian.SetTimeout gg t) = Part000.SetTimeout (erase gg) t) ∧
  Guardian.checkTimeout gg = Part000.checkTimeout (erase gg) ∧
  (∀ p, Guardian.newServiceStatus p = Part000.newServiceStatus p) ∧
  (isAll name = true →
     Guardian.GetServicesStatus gg name order
     = Part000.GetServicesStatus (erase gg) order) ∧
  (∀ execLocation,
     prod_map erase id (Guardian.RegisterService gg name execLocation env)
     = Part000.RegisterService (erase gg) name execLocation env) ∧
  (isAll name = false →
     Guardian.StopService kill gg name order
     = prod_map plainError id <$>
         Part000.StopService kill (erase gg) name) ∧
  (∀ line,
     erase <$> (fst <$> Guardian.AppendToLog cfg gg name line)
     = Part000.AppendToLog cfg (erase gg) name line) ∧
  (∀ location ps,
     erase <$> (fst <$> Guardian.waitWatcher cfg gg name location env ps)
     = fst <$> Part000.waitWatcher cfg (erase gg) name location env ps) ∧
  (isAll name = false → childStillRunning (o name) = false →
     (λ r, (r.1.1, erase r.1.2)) <$>
       Guardian.StartService cfg gg name env order o
     = (λ r, (plainError r.1.1, r.1.2)) <$>
         Part000.StartService cfg (erase gg) name env (o name)).
Proof.
  split; [done|]. split; [done|]. split; [done|].
  split; [intros Hall; unfold Guardian.GetServicesStatus,
            Part000.GetServicesStatus; rewrite Hall;
          apply erase_statusLoop|].
  split; [done|].
  split.
  { intros Hall. unfold Guardian.StopService. rewrite Hall.
    unfold Guardian.stopServiceInternal, Part000.StopService.
    change (Part000.registeredServices (erase gg))
      with (Guardian.registeredServices gg).
    change (Part000.service (erase gg) name) with (Guardian.service gg name).
    destruct (Guardian.registeredServices gg !! name) as [ss|]; [|done].
    destruct (Guardian.service gg name) as [c|]; [|done].
    destruct (exec.Process c) as [proc|]; [|done]. simpl.
    by destruct (kill (os.Pid proc)). }
  split; [intros; apply erase_AppendToLog|].
  split; [intros; apply erase_waitWatcher|].
  intros Hall Hrun. unfold Guardian.StartService. rewrite Hall.
  pose proof (erase_startService cfg gg name env (o name) Hrun) as H.
  destruct (Guardian.startServiceInternal cfg gg name env (o name))
    as [[[e gg1] evs]|];
    destruct (Part000.StartService cfg (erase gg) name env (o name))
      as [[[e' gg1'] evs']|]; simpl in H; try done.
  injection H as <- <-. done.
Qed.

Lemma snapshots_agree_on_shared_operations_witness :
  Guardian.StopService Examples.killOk Examples.workerRunning "worker"
    ["worker"]
  = prod_map plainError id <$>
      Part000.StopService Examples.killOk (erase Examples.workerRunning)
        "worker" ∧
  (λ r, (r.1.1, erase r.1.2)) <$>
    Guardian.StartService Examples.cfg Examples.workerConfigured "worker" []
      ["worker"] (λ _, Examples.gone 42 (os.ExitStatus 1))
  = (λ r, (plainError r.1.1, r.1.2)) <$>
      Part000.StartService Examples.cfg (erase Examples.workerConfigured)
        "worker" [] (Examples.gone 42 (os.ExitStatus 1)).
Proof.
  split.
  - destruct (snapshots_agree_on_shared_operations Examples.cfg
                Examples.killOk Examples.workerRunning "worker" [] ["worker"]
                (λ _, Examples.stillRunning 42))
      as (_ & _ & _ & _ & _ & Hstop & _).
    exact (Hstop eq_refl).
  - destruct (snapshots_agree_on_shared_operations Examples.cfg
                Examples.killOk Examples.workerConfigured "worker" []
                ["worker"] (λ _, Examples.gone 42 (os.ExitStatus 1)))
      as (_ & _ & _ & _ & _ & _ & _ & _ & Hstart).
    exact (Hstart eq_refl eq_refl).
Defined.

(** C9 as stated fails. A bulk stop over one registered service that is
    not running returns different aggregates in the two snapshots; over a
    running service whose kill succeeds the later snapshot returns nil and
    the earlier one two entries; and a start whose child is alive when the
    sleep ends succeeds in the later snapshot and panics in the earlier
    one. *)
Lemma snapshots_differ :
  fst <$> Guardian.StopService Examples.killOk Examples.workerRegistered
            "all" ["worker"]
  = Some (Some (multiError
      ["error stopping service worker: service is not running so can not stop"]))
  ∧
  fst <$> Part000.StopAll Examples.killOk (erase Examples.workerRegistered)
            ["worker"]
  = Some (Some (multiError ["service not running: worker"])) ∧
  fst <$> Guardian.StopService Examples.killOk Examples.workerRunning
            "all" ["worker"]
  = Some None ∧
  fst <$> Part000.StopAll Examples.killOk (erase Examples.workerRunning)
            ["worker"]
  = Some (Some (multiError ["error stopping service worker: %!s(<nil>)";
                            "service not running: worker"])) ∧
  fst <$> Guardian.StartService Examples.cfg Examples.workerConfigured
            "worker" ["B=2"] ["worker"] (λ _, Examples.stillRunning 42)
  = Some (None, Examples.workerRunning) ∧
  Part000.StartService Examples.cfg (erase Examples.workerConfigured)
    "worker" ["B=2"] (Examples.stillRunning 42)
  = None ∧
  ¬ (∀ kill gg order,
       Guardian.StopService kill gg "all" order
       = Part000.StopAll kill (erase gg) order).
Proof.
  assert (Guardian.StopService Examples.killOk Examples.workerRunning
            "all" ["worker"]
          ≠ Part000.StopAll Examples.killOk (erase Examples.workerRunning)
              ["worker"]) as Hne by (vm_compute; discriminate).
  repeat split; try (vm_compute; reflexivity).
  intros Hclaim. apply Hne, Hclaim.
Qed.


(** * Further properties of the code *)

(** ** Invariants of the registry and the process table *)

Section MoreInvariants.
Import Guardian.
Variable cfg : Config.
Variable kill : Z → option string.

Lemma startLoop_preserves (P : GladiusGuardian → Prop) :
  (∀ gg n env o err gg' evs,
     P gg → startServiceInternal cfg gg n env o = Some (err, gg', evs) → P gg') →
  ∀ order gg env o result final gg' evs,
    P gg → startLoop cfg gg order env o result = Some (final, gg', evs) → P gg'.
Proof.
  intros Hstep. induction order as [|n rest IH];
    intros gg env o result final gg' evs HP H; simpl in H.
  - by injection H as _ <- _.
  - destruct (startServiceInternal cfg gg n env (o n)) as [[[err gg1] evs1]|]
      eqn:H1; simpl in H; [|done].
    destruct (startLoop cfg gg1 rest env o _) as [[[f gg2] evs2]|] eqn:H2;
      simpl in H; [|done].
    injection H as _ <- _. eapply IH; [|exact H2]. by eapply Hstep.
Qed.

Lemma run_preserves (P : GladiusGuardian → Prop) :
  (∀ gg op gg' evs, P gg → step cfg kill gg op = Some (gg', evs) → P gg') →
  ∀ ops gg gg' evs, P gg → run cfg kill gg ops = Some (gg', evs) → P gg'.
Proof.
  intros Hstep. induction ops as [|op rest IH]; intros gg gg' evs HP H;
    simpl in H; [by injection H as <- _|].
  destruct (step cfg kill gg op) as [[gg1 evs1]|] eqn:H1; simpl in H; [|done].
  destruct (run cfg kill gg1 rest) as [[gg2 evs2]|] eqn:H2; simpl in H;
    [|done].
  injection H as <- _. eapply IH; [|exact H2]. by eapply Hstep.
Qed.

Lemma records_match_step gg gg' :
  records_match gg →
  registeredServices gg' = registeredServices gg →
  (∀ n c, service gg' n = Some c →
     service gg n = Some c ∨
     ∃ ss, registeredServices gg !! n = Some ss ∧
           exec.Env c = serviceSettings.env ss ∧ is_Some (exec.Process c)) →
  records_match gg'.
Proof.
  intros Hm Hr Hs n c Hc. rewrite Hr.
  destruct (Hs n c Hc) as [Hold|?]; [by apply Hm|done].
Qed.

Lemma startServiceInternal_records_match gg n env o err gg' evs :
  records_match gg →
  startServiceInternal cfg gg n env o = Some (err, gg', evs) →
  records_match gg'.
Proof.
  intros Hm H. apply startServiceInternal_frame in H as (_ & Hr & Hs).
  apply (records_match_step gg); [done..|]. intros m c Hc.
  destruct err as [e|].
  - left. destruct Hs as [Hs|Hs]; [unfold service in *; by rewrite <- Hs|].
    by eapply service_cleared.
  - destruct Hs as (ss & p & Hss & Hs & Hproc & Hpath & Henv & _).
    destruct (decide (m = n)) as [->|Hne].
    + rewrite (service_insert_eq _ _ _ _ Hs) in Hc. injection Hc as <-.
      right. by exists ss.
    + left. by rewrite <- (service_insert_ne _ _ _ _ _ Hs Hne).
Qed.

Lemma step_records_match gg op gg' evs :
  records_match gg → step cfg kill gg op = Some (gg', evs) → records_match gg'.
Proof.
  intros Hm H. destruct op; simpl in H.
  - unfold RegisterService in H. injection H as <- _. intros n c Hc.
    unfold service in Hc. simpl in *.
    destruct (decide (n = name)) as [->|Hne].
    + by rewrite lookup_insert_eq in Hc.
    + rewrite lookup_insert_ne in Hc by done.
      rewrite lookup_insert_ne by done. by apply Hm.
  - by injection H as <- _.
  - unfold StartService in H. destruct (isAll name).
    + destruct (startLoop cfg gg order env o []) as [[[f gg1] evs1]|] eqn:H1;
        [|done].
      injection H as <- _.
      eapply (startLoop_preserves records_match); [|done|exact H1].
      intros. by eapply startServiceInternal_records_match.
    + destruct (startServiceInternal cfg gg name env (o name))
        as [[[err gg1] evs1]|] eqn:H1; [|done].
      injection H as <- _. by eapply startServiceInternal_records_match.
  - destruct (StopService kill gg name order) as [[? ?]|]; [|done].
    by injection H as <- _.
  - unfold AddLogClient in H. destruct upgrade; by injection H as <- _.
  - apply AppendToLog_frame in H as (_ & Hr & Hs & _).
    apply (records_match_step gg); [done..|]. intros n c Hc. left.
    unfold service in *. by rewrite <- Hs.
  - apply waitWatcher_frame in H as (_ & Hr & Hs & _).
    apply (records_match_step gg); [done..|]. intros n c Hc. left.
    by eapply service_cleared.
Qed.

Lemma listed_step gg gg' :
  registered_listed gg →
  registeredServices gg' = registeredServices gg →
  (∀ n, is_Some (services gg !! n) → is_Some (services gg' !! n)) →
  registered_listed gg'.
Proof. intros Hl Hr Hs n Hn. rewrite Hr in Hn. by apply Hs, Hl. Qed.

Lemma insert_keeps_keys (s : gmap string (option exec.Cmd)) name v n :
  is_Some (s !! n) → is_Some (<[name := v]> s !! n).
Proof.
  intros Hn. destruct (decide (n = name)) as [->|Hne].
  - rewrite lookup_insert_eq. by eexists.
  - by rewrite lookup_insert_ne.
Qed.

Lemma startServiceInternal_listed gg n env o err gg' evs :
  registered_listed gg →
  startServiceInternal cfg gg n env o = Some (err, gg', evs) →
  registered_listed gg'.
Proof.
  intros Hl H. apply startServiceInternal_frame in H as (_ & Hr & Hs).
  apply (listed_step gg); [done..|]. intros m Hm.
  destruct err as [e|].
  - destruct Hs as [-> | ->]; [done|]. by apply insert_keeps_keys.
  - destruct Hs as (ss & p & _ & -> & _). by apply insert_keeps_keys.
Qed.

Lemma step_listed gg op gg' evs :
  registered_listed gg → step cfg kill gg op = Some (gg', evs) →
  registered_listed gg'.
Proof.
  intros Hl H. destruct op; simpl in H.
  - unfold RegisterService in H. injection H as <- _. intros n Hn.
    simpl in *. destruct (decide (n = name)) as [->|Hne].
    + rewrite lookup_insert_eq. by eexists.
    + rewrite lookup_insert_ne in Hn by done.
      rewrite lookup_insert_ne by done. by apply Hl.
  - by injection H as <- _.
  - unfold StartService in H. destruct (isAll name).
    + destruct (startLoop cfg gg order env o []) as [[[f gg1] evs1]|] eqn:H1;
        [|done].
      injection H as <- _.
      eapply (startLoop_preserves registered_listed); [|done|exact H1].
      intros. by eapply startServiceInternal_listed.
    + destruct (startServiceInternal cfg gg name env (o name))
        as [[[err gg1] evs1]|] eqn:H1; [|done].
      injection H as <- _. by eapply startServiceInternal_listed.
  - destruct (StopService kill gg name order) as [[? ?]|]; [|done].
    by injection H as <- _.
  - unfold AddLogClient in H. destruct upgrade; by injection H as <- _.
  - apply AppendToLog_frame in H as (_ & Hr & Hs & _).
    apply (listed_step gg); [done..|]. by rewrite Hs.
  - apply waitWatcher_frame in H as (_ & Hr & Hs & _).
    apply (listed_step gg); [done..|]. rewrite Hs. intros n.
    apply insert_keeps_keys.
Qed.

Lemma reachable_records_match ops gg evs :
  run cfg kill New ops = Some (gg, evs) → records_match gg.
Proof.
  apply (run_preserves records_match).
  - intros. by eapply step_records_match.
  - intros n c Hc. unfold service in Hc. simpl in Hc. done.
Qed.

Lemma reachable_listed ops gg evs :
  run cfg kill New ops = Some (gg, evs) → registered_listed gg.
Proof.
  apply (run_preserves registered_listed).
  - intros. by eapply step_listed.
  - intros n [? Hn]. simpl in Hn. done.
Qed.
End MoreInvariants.

(** ** More on status queries *)

Lemma newServiceStatus_running p st :
  Guardian.newServiceStatus p = Some st →
  serviceStatus.Running st = true →
  ∃ c proc, p = Some c ∧ exec.Process c = Some proc ∧
    serviceStatus.PID st = os.Pid proc ∧
    serviceStatus.Env st = exec.Env c ∧
    serviceStatus.Location st = exec.Path c.
Proof.
  destruct p as [c|]; simpl.
  - destruct (exec.Process c) as [proc|] eqn:Hproc; simpl; [|done].
    intros [= <-] _. by exists c, proc.
  - by intros [= <-].
Qed.

Lemma GetServicesStatus_entries gg name order m n st :
  Guardian.records_ok gg →
  Guardian.GetServicesStatus gg name order = Some m →
  m !! n = Some st →
  Guardian.newServiceStatus (Guardian.service gg n) = Some st.
Proof.
  intros Hok. unfold Guardian.GetServicesStatus. destruct (isAll name).
  - destruct (statusLoop_total gg order ∅ Hok) as (m' & -> & Hm).
    intros [= <-]. rewrite Hm. destruct (decide (n ∈ order)); [done|].
    by rewrite lookup_empty.
  - destruct (Guardian.newServiceStatus (Guardian.service gg name)) as [st'|]
      eqn:Hst; simpl; [|done].
    intros [= <-]. destruct (decide (n = name)) as [->|Hne].
    + rewrite lookup_insert_eq. by intros [= <-].
    + by rewrite lookup_insert_ne, lookup_empty.
Qed.

(** X1: on every guardian reached from [New], the status of all services
    has an entry for every registered service, whether it was ever started
    or not, and the entry says running exactly when the process table holds
    a record for the service. *)
Theorem status_all_lists_every_registered_service (cfg : Config)
    (kill : Z → option string) (ops : list Guardian.Op)
    (gg : Guardian.GladiusGuardian) (evs0 : list Event)
    (name : string) (order : list string) :
  Guardian.run cfg kill Guardian.New ops = Some (gg, evs0) →
  range_order (Guardian.services gg) order →
  isAll name = true →
  ∃ m,
    Guardian.GetServicesStatus gg name order = Some m ∧
    ∀ n, is_Some (Guardian.registeredServices gg !! n) →
      ∃ st, m !! n = Some st ∧
        (serviceStatus.Running st = true ↔ is_Some (Guardian.service gg n)).
Proof.
  intros Hrun Hord Hall.
  pose proof (reachable_records_ok _ _ _ _ _ Hrun) as Hok.
  pose proof (reachable_listed _ _ _ _ _ Hrun) as Hl.
  unfold Guardian.GetServicesStatus. rewrite Hall.
  destruct (statusLoop_total gg order ∅ Hok) as (m & -> & Hm).
  exists m. split; [done|]. intros n Hn.
  assert (n ∈ order) as Hin by (apply (range_order_elem _ _ _ Hord); auto).
  destruct (newServiceStatus_total gg n Hok) as [st Hst].
  exists st. split.
  - rewrite Hm. by destruct (decide (n ∈ order)).
  - destruct (Guardian.service gg n) as [c|]; simpl in Hst.
    + destruct (exec.Process c); simpl in Hst; [|done].
      injection Hst as <-. simpl. split; eauto.
    + injection Hst as <-. simpl. split; [done|]. by intros [? ?].
Qed.

Lemma status_all_lists_every_registered_service_witness :
  ∃ m,
    Guardian.GetServicesStatus Examples.workerRunning "" ["worker"] = Some m ∧
    ∀ n, is_Some (Guardian.registeredServices Examples.workerRunning !! n) →
      ∃ st, m !! n = Some st ∧
        (serviceStatus.Running st = true ↔
         is_Some (Guardian.service Examples.workerRunning n)).
Proof.
  exact (status_all_lists_every_registered_service Examples.cfg Examples.killOk
           Examples.startWorker Examples.workerRunning
           Examples.startWorkerEvents "" ["worker"]
           examples_run_running examples_running_services_order eq_refl).
Defined.

(** X2: on every guardian reached from [New], a status entry that says
    running belongs to a registered service with a recorded process; it
    carries the pid of that process, the path of the recorded command, and
    as environment the one that is registered for the service at the time
    of the query. *)
Theorem status_running_reports_registration (cfg : Config)
    (kill : Z → option string) (ops : list Guardian.Op)
    (gg : Guardian.GladiusGuardian) (evs0 : list Event)
    (name : string) (order : list string)
    (m : gmap string serviceStatus.t) (n : string) (st : serviceStatus.t) :
  Guardian.run cfg kill Guardian.New ops = Some (gg, evs0) →
  Guardian.GetServicesStatus gg name order = Some m →
  m !! n = Some st →
  serviceStatus.Running st = true →
  ∃ ss c,
    Guardian.registeredServices gg !! n = Some ss ∧
    Guardian.service gg n = Some c ∧
    Guardian.runningPid gg n = Some (serviceStatus.PID st) ∧
    serviceStatus.Location st = exec.Path c ∧
    serviceStatus.Env st = serviceSettings.env ss.
Proof.
  intros Hrun Hget Hn Hr.
  pose proof (reachable_records_ok _ _ _ _ _ Hrun) as Hok.
  pose proof (reachable_records_match _ _ _ _ _ Hrun) as Hm.
  pose proof (GetServicesStatus_entries _ _ _ _ _ _ Hok Hget Hn) as Hst.
  destruct (newServiceStatus_running _ _ Hst Hr)
    as (c & proc & Hc & Hproc & Hpid & Henv & Hloc).
  destruct (Hm n c Hc) as (ss & Hss & Henv' & _).
  exists ss, c. rewrite Hloc, Henv, Hpid. repeat split; try done.
  unfold Guardian.runningPid. rewrite Hc. simpl. by rewrite Hproc.
Qed.

Lemma examples_running_status :
  Guardian.GetServicesStatus Examples.workerRunning "worker" ["worker"]
  = Some {["worker" := {| serviceStatus.Running := true;
                          serviceStatus.PID := 42;
                          serviceStatus.Env := ["A=1"];
                          serviceStatus.Location := "/usr/bin/worker" |}]}.
Proof. vm_compute. reflexivity. Qed.

Lemma status_running_reports_registration_witness :
  ∃ ss c,
    Guardian.registeredServices Examples.workerRunning !! "worker" = Some ss ∧
    Guardian.service Examples.workerRunning "worker" = Some c ∧
    Guardian.runningPid Examples.workerRunning "worker" = Some 42 ∧
    "/usr/bin/worker" = exec.Path c ∧
    ["A=1"] = serviceSettings.env ss.
Proof.
  exact (status_running_reports_registration Examples.cfg Examples.killOk
           Examples.startWorker Examples.workerRunning
           Examples.startWorkerEvents "worker" ["worker"] _ "worker"
           {| serviceStatus.Running := true; serviceStatus.PID := 42;
              serviceStatus.Env := ["A=1"];
              serviceStatus.Location := "/usr/bin/worker" |}
           examples_run_running examples_running_status
           (lookup_insert_eq _ _ _) eq_refl).
Defined.

(** X3: the status of all services does not depend on the order in which
    the process table is ranged over. *)
Theorem status_all_order_independent (cfg : Config)
    (kill : Z → option string) (ops : list Guardian.Op)
    (gg : Guardian.GladiusGuardian) (evs0 : list Event)
    (name : string) (order1 order2 : list string) :
  Guardian.run cfg kill Guardian.New ops = Some (gg, evs0) →
  range_order (Guardian.services gg) order1 →
  range_order (Guardian.services gg) order2 →
  Guardian.GetServicesStatus gg name order1
  = Guardian.GetServicesStatus gg name order2.
Proof.
  intros Hrun H1 H2.
  pose proof (reachable_records_ok _ _ _ _ _ Hrun) as Hok.
  unfold Guardian.GetServicesStatus. destruct (isAll name); [|done].
  destruct (statusLoop_total gg order1 ∅ Hok) as (m1 & -> & Hm1).
  destruct (statusLoop_total gg order2 ∅ Hok) as (m2 & -> & Hm2).
  f_equal. apply map_eq. intros n. rewrite Hm1, Hm2.
  pose proof (range_order_elem _ _ n H1) as E1.
  pose proof (range_order_elem _ _ n H2) as E2.
  destruct (decide (n ∈ order1)) as [Hin|Hnin];
    destruct (decide (n ∈ order2)) as [Hin'|Hnin']; try done.
  - exfalso. apply Hnin', E2, E1, Hin.
  - exfalso. apply Hnin, E1, E2, Hin'.
Qed.

Lemma examples_run_two :
  Guardian.run Examples.cfg Examples.killOk Guardian.New Examples.registerTwo
  = Some (Examples.twoConfigured, Examples.registerTwoEvents).
Proof. vm_compute. reflexivity. Qed.

Lemma examples_two_services_order_ab :
  range_order (Guardian.services Examples.twoConfigured) ["api"; "db"].
Proof.
  unfold range_order.
  apply (bool_decide_unpack _ (dec:=Permutation_dec _ _)).
  vm_compute. reflexivity.
Qed.

Lemma examples_two_services_order_ba :
  range_order (Guardian.services Examples.twoConfigured) ["db"; "api"].
Proof.
  unfold range_order.
  apply (bool_decide_unpack _ (dec:=Permutation_dec _ _)).
  vm_compute. reflexivity.
Qed.

Lemma examples_two_registered_order_ab :
  range_order (Guardian.registeredServices Examples.twoConfigured)
    ["api"; "db"].
Proof.
  unfold range_order.
  apply (bool_decide_unpack _ (dec:=Permutation_dec _ _)).
  vm_compute. reflexivity.
Qed.

Lemma examples_two_registered_order_ba :
  range_order (Guardian.registeredServices Examples.twoConfigured)
    ["db"; "api"].
Proof.
  unfold range_order.
  apply (bool_decide_unpack _ (dec:=Permutation_dec _ _)).
  vm_compute. reflexivity.
Qed.

Lemma status_all_order_independent_witness :
  Guardian.GetServicesStatus Examples.twoConfigured "all" ["api"; "db"]
  = Guardian.GetServicesStatus Examples.twoConfigured "all" ["db"; "api"].
Proof.
  exact (status_all_order_independent Examples.cfg Examples.killOk
           Examples.registerTwo Examples.twoConfigured
           Examples.registerTwoEvents "all" ["api"; "db"] ["db"; "api"]
           examples_run_two examples_two_services_order_ab
           examples_two_services_order_ba).
Defined.

(** ** More on stopping *)

Lemma StopService_all_result (kill : Z → option string)
    (gg : Guardian.GladiusGuardian) (name : string) (order : list string) :
  isAll name = true →
  Guardian.records_ok gg →
  (∀ n, n ∈ order → is_Some (Guardian.registeredServices gg !! n)) →
  ∃ evs,
    Guardian.StopService kill gg name order
    = Some (ErrorOrNil (omap (Guardian.stopFailure kill gg) order), evs) ∧
    kills evs = omap (Guardian.runningPid gg) order.
Proof.
  intros Hall Hok Hreg. unfold Guardian.StopService. rewrite Hall.
  destruct (stopLoop_outcomes kill gg Hok order [] Hreg) as (evs & -> & Hk).
  simpl. destruct (ErrorOrNil _); eexists; (split; [reflexivity|]); [|done].
  rewrite kills_app. simpl. by rewrite app_nil_r.
Qed.

Lemma ErrorOrNil_None result : ErrorOrNil result = None ↔ result = [].
Proof. by destruct result. Qed.

(** X4: whatever order the registry is ranged over, a bulk stop sends the
    same kills and aggregates the same failures, up to their order; in
    particular it returns nil for one order exactly when it does for every
    other. *)
Theorem StopService_all_order_independent (kill : Z → option string)
    (gg : Guardian.GladiusGuardian) (name : string)
    (order1 order2 : list string) :
  isAll name = true →
  Guardian.records_ok gg →
  range_order (Guardian.registeredServices gg) order1 →
  range_order (Guardian.registeredServices gg) order2 →
  ∃ err1 evs1 err2 evs2,
    Guardian.StopService kill gg name order1 = Some (err1, evs1) ∧
    Guardian.StopService kill gg name order2 = Some (err2, evs2) ∧
    aggregated err1 ≡ₚ aggregated err2 ∧
    kills evs1 ≡ₚ kills evs2 ∧
    (err1 = None ↔ err2 = None).
Proof.
  intros Hall Hok H1 H2.
  assert (order1 ≡ₚ order2) as Hperm
    by (unfold range_order in *; by rewrite H1, H2).
  destruct (StopService_all_result kill gg name order1 Hall Hok)
    as (evs1 & -> & Hk1).
  { intros n Hn. by apply (range_order_elem _ _ _ H1). }
  destruct (StopService_all_result kill gg name order2 Hall Hok)
    as (evs2 & -> & Hk2).
  { intros n Hn. by apply (range_order_elem _ _ _ H2). }
  do 4 eexists. split; [done|]. split; [done|].
  rewrite !aggregated_ErrorOrNil, Hk1, Hk2.
  pose proof (omap_Permutation (Guardian.stopFailure kill gg) _ _ Hperm) as Hf.
  split; [done|]. split; [by apply omap_Permutation|].
  rewrite !ErrorOrNil_None. split; intros E; rewrite E in Hf.
  - by apply Permutation_nil_l in Hf.
  - by apply Permutation_nil_r in Hf.
Qed.

Lemma examples_two_ok : Guardian.records_ok Examples.twoConfigured.
Proof. exact (reachable_records_ok _ _ _ _ _ examples_run_two). Qed.

Lemma StopService_all_order_independent_witness :
  ∃ err1 evs1 err2 evs2,
    Guardian.StopService Examples.killOk Examples.twoConfigured "all"
      ["api"; "db"] = Some (err1, evs1) ∧
    Guardian.StopService Examples.killOk Examples.twoConfigured "all"
      ["db"; "api"] = Some (err2, evs2) ∧
    aggregated err1 ≡ₚ aggregated err2 ∧
    kills evs1 ≡ₚ kills evs2 ∧
    (err1 = None ↔ err2 = None).
Proof.
  exact (StopService_all_order_independent Examples.killOk
           Examples.twoConfigured "all" ["api"; "db"] ["db"; "api"] eq_refl
           examples_two_ok examples_two_registered_order_ab
           examples_two_registered_order_ba).
Defined.

(** X5: a stop of one service, on a guardian whose records were all
    started: it sends a kill only when the service is registered and has a
    record, and then exactly one, to the recorded pid. It returns nil
    exactly when that kill went through; otherwise the error tells which
    of the three ways it failed, the refusal of the OS with its text. *)
Theorem StopService_single_outcomes (kill : Z → option string)
    (gg : Guardian.GladiusGuardian) (name : string) (order : list string) :
  isAll name = false →
  Guardian.records_ok gg →
  ∃ err evs,
    Guardian.StopService kill gg name order = Some (err, evs) ∧
    kills evs
    = (if Guardian.registeredServices gg !! name is Some _
       then option_list (Guardian.runningPid gg name) else []) ∧
    err
    = match Guardian.registeredServices gg !! name with
      | None => Some (errorString "attempted to stop unregistered service")
      | Some _ =>
          match Guardian.runningPid gg name with
          | None => Some (errorString "service is not running so can not stop")
          | Some pid =>
              (λ e, errorString ("couldn't kill service, error was: " +:+ e))
                <$> kill pid
          end
      end.
Proof.
  intros Hall Hok. unfold Guardian.StopService. rewrite Hall.
  unfold Guardian.stopServiceInternal, Guardian.runningPid.
  destruct (Guardian.registeredServices gg !! name) as [ss|]; [|by eauto].
  destruct (Guardian.service gg name) as [c|] eqn:Hc; simpl; [|by eauto].
  destruct (Hok name c Hc) as [[proc Hproc] _]. rewrite Hproc. simpl.
  destruct (kill (os.Pid proc)); simpl; eauto.
Qed.

Lemma StopService_single_outcomes_witness :
  ∃ err evs,
    Guardian.StopService Examples.killRefused7 Examples.workerRunning "worker"
      [] = Some (err, evs) ∧
    kills evs
    = (if Guardian.registeredServices Examples.workerRunning !! "worker"
         is Some _
       then option_list (Guardian.runningPid Examples.workerRunning "worker")
       else []) ∧
    err
    = match Guardian.registeredServices Examples.workerRunning !! "worker" with
      | None => Some (errorString "attempted to stop unregistered service")
      | Some _ =>
          match Guardian.runningPid Examples.workerRunning "worker" with
          | None => Some (errorString "service is not running so can not stop")
          | Some pid =>
              (λ e, errorString ("couldn't kill service, error was: " +:+ e))
                <$> Examples.killRefused7 pid
          end
      end.
Proof.
  exact (StopService_single_outcomes Examples.killRefused7
           Examples.workerRunning "worker" [] eq_refl examples_running_ok).
Defined.

(** ** Starting: one service, then all *)

Section Starting.
Import Guardian.
Variable cfg : Config.
Hypothesis Hcap : 0 < MaxLogLines cfg.







End Starting.



Example StartService_all_two :
  (λ r, (r.1.1, Guardian.runningPid r.1.2 "api",
         Guardian.runningPid r.1.2 "db", sleeps r.2)) <$>
    Guardian.StartService Examples.cfg Examples.twoConfigured "all" []
      ["api"; "db"] Examples.twoOracle
  = Some (Some (multiError
            ["error starting service db: process db already exited, check the logs for errors"]),
          Some 7, None, [50000000; 50000000]).
Proof. vm_compute. reflexivity. Qed.



(** ** The life of a service: start, status, stop, exit, start again *)

Lemma startServiceInternal_running_child (cfg : Config)
    (gg : Guardian.GladiusGuardian) (name : string) (env : list string)
    (o : SpawnOracle) (ss : serviceSettings.t) (d pid : Z) :
  Guardian.registeredServices gg !! name = Some ss →
  Guardian.service gg name = None →
  Guardian.spawnTimeout gg = Some d →
  stdoutPipe o = None → stderrPipe o = None → start o = inr pid →
  graceFate o = None →
  ∃ evs,
    Guardian.startServiceInternal cfg gg name env o
    = Some (None,
            Guardian.set_services gg
              (<[name := Some {| exec.Path := serviceSettings.execName ss;
                                 exec.Env := serviceSettings.env ss;
                                 exec.Process := Some {| os.Pid := pid |};
                                 exec.ProcessState := None |}]>
                 (Guardian.services gg)),
            evs) ∧
    sleeps evs = [d].
Proof.
  intros Hss Hsvc Ht Hout Herr Hstart Hfate.
  unfold Guardian.startServiceInternal, Guardian.checkTimeout.
  rewrite Hss, Hsvc, Ht.
  rewrite (spawnProcess_running_child cfg gg name _ _ d o pid Hout Herr Hstart
             Hfate).
  simpl. eexists. split; reflexivity.
Qed.

(** X8: a registered service that is not running, with a timeout set and a
    child that stays alive: the start succeeds. From then on, whatever the
    reader goroutines append to the logs in the meantime: the status
    reports the service running with the pid of the child and the
    registered environment; a stop sends exactly one kill to that pid and,
    if the OS accepts it, returns nil; when the watcher then sees the death
    by SIGKILL it clears the slot, writes to no subscriber and leaves the
    logs as it found them; the status reports not running; and the service
    can be started again. *)
Theorem start_stop_exit_cycle (cfg : Config) (kill : Z → option string)
    (gg : Guardian.GladiusGuardian) (name : string) (env order : list string)
    (o : string → SpawnOracle) (ss : serviceSettings.t) (d pid : Z) :
  isAll name = false →
  Guardian.registeredServices gg !! name = Some ss →
  Guardian.service gg name = None →
  Guardian.spawnTimeout gg = Some d →
  stdoutPipe (o name) = None → stderrPipe (o name) = None →
  start (o name) = inr pid → graceFate (o name) = None →
  kill pid = None →
  ∃ gg1 evs1,
    Guardian.StartService cfg gg name env order o = Some (None, gg1, evs1) ∧
    ∀ logs1 logs2,
      (∃ st,
         Guardian.GetServicesStatus (withLogs gg1 logs1) name order
         = Some {[name := st]} ∧
         serviceStatus.Running st = true ∧
         serviceStatus.PID st = pid ∧
         serviceStatus.Env st = serviceSettings.env ss) ∧
      Guardian.StopService kill (withLogs gg1 logs1) name order
      = Some (None, [EvKill pid]) ∧
      ∃ gg2,
        Guardian.waitWatcher cfg (withLogs gg1 logs1) name
          (serviceSettings.execName ss) (serviceSettings.env ss)
          (os.Signaled "killed") = Some (gg2, []) ∧
        Guardian.serviceLogs gg2 = logs1 ∧
        Guardian.GetServicesStatus (withLogs gg2 logs2) name order
        = Some {[name := {| serviceStatus.Running := false;
                            serviceStatus.PID := 0;
                            serviceStatus.Env := [];
                            serviceStatus.Location := "" |}]} ∧
        ∃ gg3 evs3,
          Guardian.StartService cfg (withLogs gg2 logs2) name env order o
          = Some (None, gg3, evs3) ∧
          Guardian.runningPid gg3 name = Some pid.
Proof.
  intros Hall Hss Hsvc Ht Hout Herr Hstart Hfate Hkill.
  destruct (startServiceInternal_running_child cfg gg name env (o name) ss d
              pid Hss Hsvc Ht Hout Herr Hstart Hfate) as (evs1 & H1 & _).
  set (cmd := {| exec.Path := serviceSettings.execName ss;
                 exec.Env := serviceSettings.env ss;
                 exec.Process := Some {| os.Pid := pid |};
                 exec.ProcessState := None |}) in *.
  set (gg1 := Guardian.set_services gg
                (<[name := Some cmd]> (Guardian.services gg))) in *.
  exists gg1, evs1. split.
  { unfold Guardian.StartService. by rewrite Hall, H1. }
  intros logs1 logs2.
  set (gg1' := withLogs gg1 logs1).
  set (gg2 := Guardian.set_services gg1'
                (<[name := None]> (Guardian.services gg1'))).
  assert (Guardian.service gg1' name = Some cmd) as Hsvc1
    by (unfold Guardian.service, gg1', gg1; simpl; by rewrite lookup_insert_eq).
  assert (Guardian.service (withLogs gg2 logs2) name = None) as Hsvc2
    by (unfold Guardian.service, gg2; simpl; by rewrite lookup_insert_eq).
  destruct (startServiceInternal_running_child cfg (withLogs gg2 logs2) name
              env (o name) ss d pid Hss Hsvc2 Ht Hout Herr Hstart Hfate)
    as (evs3 & H3 & _).
  split.
  { eexists. unfold Guardian.GetServicesStatus. rewrite Hall, Hsvc1.
    simpl. by repeat split. }
  split.
  { unfold Guardian.StopService, Guardian.stopServiceInternal.
    rewrite Hall, Hsvc1.
    change (Guardian.registeredServices gg1')
      with (Guardian.registeredServices gg).
    rewrite Hss. simpl. by rewrite Hkill. }
  exists gg2. split; [done|]. split; [done|]. split.
  { unfold Guardian.GetServicesStatus. by rewrite Hall, Hsvc2. }
  eexists. exists evs3. split.
  { unfold Guardian.StartService. by rewrite Hall, H3. }
  unfold Guardian.runningPid, Guardian.service. simpl.
  by rewrite lookup_insert_eq.
Qed.

Lemma start_stop_exit_cycle_witness :
  ∃ gg1 evs1,
    Guardian.StartService Examples.cfg Examples.workerConfigured "worker"
      ["B=2"] ["worker"] (λ _, Examples.stillRunning 42)
    = Some (None, gg1, evs1) ∧
    ∀ logs1 logs2,
      (∃ st,
         Guardian.GetServicesStatus (withLogs gg1 logs1) "worker" ["worker"]
         = Some {["worker" := st]} ∧
         serviceStatus.Running st = true ∧
         serviceStatus.PID st = 42 ∧
         serviceStatus.Env st = ["A=1"]) ∧
      Guardian.StopService Examples.killOk (withLogs gg1 logs1) "worker"
        ["worker"] = Some (None, [EvKill 42]) ∧
      ∃ gg2,
        Guardian.waitWatcher Examples.cfg (withLogs gg1 logs1) "worker"
          "/usr/bin/worker" ["A=1"] (os.Signaled "killed") = Some (gg2, []) ∧
        Guardian.serviceLogs gg2 = logs1 ∧
        Guardian.GetServicesStatus (withLogs gg2 logs2) "worker" ["worker"]
        = Some {["worker" := {| serviceStatus.Running := false;
                                serviceStatus.PID := 0;
                                serviceStatus.Env := [];
                                serviceStatus.Location := "" |}]} ∧
        ∃ gg3 evs3,
          Guardian.StartService Examples.cfg (withLogs gg2 logs2) "worker"
            ["B=2"] ["worker"] (λ _, Examples.stillRunning 42)
          = Some (None, gg3, evs3) ∧
          Guardian.runningPid gg3 "worker" = Some 42.
Proof.
  refine (start_stop_exit_cycle Examples.cfg Examples.killOk
            Examples.workerConfigured "worker" ["B=2"] ["worker"]
            (λ _, Examples.stillRunning 42)
            {| serviceSettings.env := ["A=1"];
               serviceSettings.execName := "/usr/bin/worker" |}
            50000000 42 eq_refl _ _ eq_refl eq_refl eq_refl eq_refl eq_refl
            eq_refl); vm_compute; reflexivity.
Defined.

(** ** Log subscribers *)

Section Subscribers.
Import Guardian.

Lemma AddLogClient_subscribers gg serviceName conn :
  subscribers (AddLogClient gg serviceName (inr conn)).1 serviceName
  = subscribers gg serviceName ++ [conn] ∧
  ∀ s, s ≠ serviceName →
    subscribers (AddLogClient gg serviceName (inr conn)).1 s
    = subscribers gg s.
Proof.
  unfold subscribers. simpl. split.
  - by rewrite lookup_insert_eq.
  - intros s Hs. by rewrite lookup_insert_ne.
Qed.

Lemma addClients_frame serviceName conns : ∀ gg,
  subscribers (addClients gg serviceName conns) serviceName
  = subscribers gg serviceName ++ conns ∧
  (∀ s, s ≠ serviceName →
     subscribers (addClients gg serviceName conns) s = subscribers gg s) ∧
  serviceLogs (addClients gg serviceName conns) = serviceLogs gg ∧
  services (addClients gg serviceName conns) = services gg ∧
  registeredServices (addClients gg serviceName conns) = registeredServices gg.
Proof.
  induction conns as [|c conns IH]; intros gg.
  - unfold addClients. simpl. by rewrite app_nil_r.
  - change (addClients gg serviceName (c :: conns))
      with (addClients (AddLogClient gg serviceName (inr c)).1 serviceName
              conns).
    destruct (IH (AddLogClient gg serviceName (inr c)).1)
      as (H1 & H2 & H3 & H4 & H5).
    destruct (AddLogClient_subscribers gg serviceName c) as [Ha Hb].
    rewrite H1, H3, H4, H5, Ha, <- app_assoc.
    repeat split; try done.
    intros s Hs. by rewrite (H2 s Hs), (Hb s Hs).
Qed.
End Subscribers.

(** X9: a line appended to the log of a service is written once to every
    subscriber of that service, in the order the subscribers were added,
    those added last included; subscribers of the service receive nothing
    of what is appended for another service; and an upgrade that fails
    adds no subscriber. *)
Theorem AppendToLog_fans_out (cfg : Config) (gg : Guardian.GladiusGuardian)
    (serviceName : string) (conns : list Conn) (line : string) :
  0 < MaxLogLines cfg →
  (∃ gg',
     Guardian.AppendToLog cfg (addClients gg serviceName conns) serviceName
       line
     = Some (gg', (λ conn, EvWriteMessage conn line)
                    <$> (subscribers gg serviceName ++ conns)) ∧
     subscribers gg' serviceName = subscribers gg serviceName ++ conns) ∧
  (∀ other text, other ≠ serviceName →
     ∃ gg',
       Guardian.AppendToLog cfg (addClients gg serviceName conns) other text
       = Some (gg', (λ conn, EvWriteMessage conn text)
                      <$> subscribers gg other)) ∧
  (∀ err, subscribers (Guardian.AddLogClient gg serviceName (inl err)).1
            serviceName
          = subscribers gg serviceName).
Proof.
  intros Hcap.
  destruct (addClients_frame serviceName conns gg) as (H1 & H2 & _).
  split; [|split; [|done]].
  - destruct (AppendToLog_positive cfg Hcap (addClients gg serviceName conns)
                serviceName line) as (b & gg' & Heq & _).
    exists gg'. pose proof (AppendToLog_frame _ _ _ _ _ _ Heq)
      as (_ & _ & _ & Hws & _).
    split.
    + rewrite Heq. unfold Guardian.updateWebsocketLog.
      change (default [] (Guardian.serviceWebSockets
                            (addClients gg serviceName conns) !! serviceName))
        with (subscribers (addClients gg serviceName conns) serviceName).
      by rewrite H1.
    + unfold subscribers in *. by rewrite Hws.
  - intros other text Hne.
    destruct (AppendToLog_positive cfg Hcap (addClients gg serviceName conns)
                other text) as (b & gg' & Heq & _).
    exists gg'. rewrite Heq. unfold Guardian.updateWebsocketLog.
    change (default [] (Guardian.serviceWebSockets
                          (addClients gg serviceName conns) !! other))
      with (subscribers (addClients gg serviceName conns) other).
    by rewrite (H2 other Hne).
Qed.

Lemma AppendToLog_fans_out_witness :
  ∃ gg',
    Guardian.AppendToLog Examples.cfg
      (addClients Examples.workerRunning "worker" [3; 5]%nat) "worker" "ready"
    = Some (gg', (λ conn, EvWriteMessage conn "ready")
                   <$> (subscribers Examples.workerRunning "worker"
                        ++ [3; 5]%nat)) ∧
    subscribers gg' "worker"
    = subscribers Examples.workerRunning "worker" ++ [3; 5]%nat.
Proof.
  refine (proj1 (AppendToLog_fans_out Examples.cfg Examples.workerRunning
                   "worker" [3; 5]%nat "ready" _)).
  reflexivity.
Defined.

(** ** Registering *)

(** X10: of two registrations under one name the later one wins, so
    registering twice with the same settings is registering once. A
    registration leaves the settings, records and subscribers of every
    other service, all log buffers and the timeout as they were, and it
    empties the subscriber set of its own name: a line appended afterwards
    reaches none of the earlier subscribers, while the lines buffered
    before are still there. *)
Theorem RegisterService_last_wins (cfg : Config)
    (gg : Guardian.GladiusGuardian) (name e1 e2 : string)
    (v1 v2 : list string) (conns : list Conn) (line : string) :
  0 < MaxLogLines cfg →
  (Guardian.RegisterService (Guardian.RegisterService gg name e1 v1).1
     name e2 v2).1
  = (Guardian.RegisterService gg name e2 v2).1 ∧
  Guardian.registeredServices (Guardian.RegisterService gg name e2 v2).1
    !! name
  = Some {| serviceSettings.env := v2; serviceSettings.execName := e2 |} ∧
  (∀ m, m ≠ name →
     Guardian.registeredServices (Guardian.RegisterService gg name e2 v2).1
       !! m = Guardian.registeredServices gg !! m ∧
     Guardian.service (Guardian.RegisterService gg name e2 v2).1 m
     = Guardian.service gg m ∧
     subscribers (Guardian.RegisterService gg name e2 v2).1 m
     = subscribers gg m) ∧
  Guardian.serviceLogs (Guardian.RegisterService gg name e2 v2).1
  = Guardian.serviceLogs gg ∧
  Guardian.spawnTimeout (Guardian.RegisterService gg name e2 v2).1
  = Guardian.spawnTimeout gg ∧
  ∃ gg',
    Guardian.AppendToLog cfg
      (Guardian.RegisterService (addClients gg name conns) name e2 v2).1
      name line
    = Some (gg', []).
Proof.
  intros Hcap. unfold Guardian.RegisterService. simpl.
  split; [by rewrite !insert_insert_eq|].
  split; [by rewrite lookup_insert_eq|].
  split; [|split; [done|split; [done|]]].
  - intros m Hm. unfold Guardian.service, subscribers. simpl.
    by rewrite !lookup_insert_ne.
  - match goal with
    | |- ∃ gg', Guardian.AppendToLog cfg ?g name line = _ =>
        destruct (AppendToLog_positive cfg Hcap g name line)
          as (b & gg' & Heq & _)
    end.
    exists gg'. rewrite Heq. unfold Guardian.updateWebsocketLog. simpl.
    by rewrite lookup_insert_eq.
Qed.

Lemma RegisterService_last_wins_witness :
  ∃ gg',
    Guardian.AppendToLog Examples.cfg
      (Guardian.RegisterService
         (addClients Examples.workerRunning "worker" [3; 5]%nat)
         "worker" "/usr/bin/worker2" ["A=2"]).1
      "worker" "ready"
    = Some (gg', []).
Proof.
  refine (proj2 (proj2 (proj2 (proj2 (proj2
    (RegisterService_last_wins Examples.cfg Examples.workerRunning "worker"
       "/usr/bin/worker" "/usr/bin/worker2" ["A=1"] ["A=2"] [3; 5]%nat
       "ready" _)))))).
  reflexivity.
Defined.

(** ** A stream of log lines *)

Section LogStream.
Import Guardian.
Variable cfg : Config.
Variable kill : Z → option string.
Hypothesis Hcap : 0 < MaxLogLines cfg.

Lemma run_AppendToLog serviceName (b0 : FixedSizeLog.t) lines :
  FixedSizeLog.New (MaxLogLines cfg) = Some b0 →
  ∀ gg,
  ∃ gg',
    run cfg kill gg (OpAppendToLog serviceName <$> lines)
    = Some (gg',
            mjoin ((λ line, (λ conn, EvWriteMessage conn line)
                              <$> subscribers gg serviceName) <$> lines)) ∧
    serviceLogs gg' !! serviceName
    = match lines with
      | [] => serviceLogs gg !! serviceName
      | _ :: _ =>
          Some (FixedSizeLog.AppendAll
                  (default b0 (serviceLogs gg !! serviceName)) lines)
      end ∧
    (∀ s, s ≠ serviceName → serviceLogs gg' !! s = serviceLogs gg !! s) ∧
    services gg' = services gg ∧
    registeredServices gg' = registeredServices gg ∧
    serviceWebSockets gg' = serviceWebSockets gg.
Proof.
  intros Hnew. induction lines as [|l rest IH]; intros gg.
  - exists gg. by repeat split.
  - cbn [fmap list_fmap run step].
    destruct (AppendToLog_positive cfg Hcap gg serviceName l)
      as (b & gg1 & Heq & Hb & Hlogs & Hs & Hr & _).
    pose proof (AppendToLog_frame _ _ _ _ _ _ Heq) as (_ & _ & _ & Hws & _).
    rewrite Heq. cbn [mbind option_bind].
    destruct (IH gg1) as (gg2 & H2 & Hl2 & Hfr2 & Hs2 & Hr2 & Hws2).
    change (list_fmap string Op (OpAppendToLog serviceName) rest)
      with (OpAppendToLog serviceName <$> rest).
    rewrite H2. cbn [mbind option_bind].
    assert (default b0 (serviceLogs gg !! serviceName) = b) as Hdef.
    { destruct Hb as [-> | [-> Hb]]; [done|]. simpl. congruence. }
    assert (serviceLogs gg1 !! serviceName = Some (FixedSizeLog.Append b l))
      as Hl1 by (by rewrite Hlogs, lookup_insert_eq).
    exists gg2. split; [|split; [|split; [|split; [|split]]]].
    + f_equal. f_equal. unfold updateWebsocketLog, subscribers.
      by rewrite Hws.
    + rewrite Hl2, Hl1, Hdef. simpl. by destruct rest.
    + intros s Hne. rewrite (Hfr2 s Hne), Hlogs. by rewrite lookup_insert_ne.
    + congruence.
    + congruence.
    + congruence.
Qed.
End LogStream.

(** X11: lines appended one after the other for a service end up, in that
    order, in the buffer of that service, which is created with the
    configured capacity at the first line if the service has none; for a
    service without a buffer the snapshot afterwards is the last
    [MaxLogLines] of the lines. Every line is written to the subscribers of
    the service as it is appended, and the buffers of other services, the
    registry, the process table and the subscriber sets are untouched. *)
Theorem AppendToLog_stream (cfg : Config) (kill : Z → option string)
    (gg : Guardian.GladiusGuardian) (serviceName : string)
    (l : string) (rest : list string) :
  0 < MaxLogLines cfg →
  ∃ gg' b0,
    FixedSizeLog.New (MaxLogLines cfg) = Some b0 ∧
    Guardian.run cfg kill gg
      (Guardian.OpAppendToLog serviceName <$> l :: rest)
    = Some (gg',
            mjoin ((λ line, (λ conn, EvWriteMessage conn line)
                              <$> subscribers gg serviceName)
                     <$> l :: rest)) ∧
    Guardian.serviceLogs gg' !! serviceName
    = Some (FixedSizeLog.AppendAll
              (default b0 (Guardian.serviceLogs gg !! serviceName))
              (l :: rest)) ∧
    (Guardian.serviceLogs gg !! serviceName = None →
       FixedSizeLog.Snapshot <$> Guardian.serviceLogs gg' !! serviceName
       = Some (lastLines (Z.to_nat (MaxLogLines cfg)) (l :: rest))) ∧
    (∀ s, s ≠ serviceName →
       Guardian.serviceLogs gg' !! s = Guardian.serviceLogs gg !! s) ∧
    Guardian.services gg' = Guardian.services gg ∧
    Guardian.registeredServices gg' = Guardian.registeredServices gg ∧
    Guardian.serviceWebSockets gg' = Guardian.serviceWebSockets gg.
Proof.
  intros Hcap.
  assert (FixedSizeLog.New (MaxLogLines cfg)
          = Some {| FixedSizeLog.capacity := MaxLogLines cfg;
                    FixedSizeLog.lines := [] |}) as Hnew.
  { unfold FixedSizeLog.New. destruct (_ <=? 0) eqn:E; [lia|done]. }
  destruct (run_AppendToLog cfg kill Hcap serviceName _ (l :: rest) Hnew gg)
    as (gg' & Hrun & Hlog & Hfr).
  destruct Hfr as (Hfr & Hs & Hr & Hws).
  exists gg'. eexists. split; [exact Hnew|]. split; [exact Hrun|].
  split; [exact Hlog|]. split; [|by repeat split].
  intros Hnone. rewrite Hlog, Hnone. cbn [default fmap option_fmap option_map].
  f_equal. unfold FixedSizeLog.Snapshot.
  rewrite AppendAll_window; [reflexivity|simpl; lia..].
Qed.

Lemma AppendToLog_stream_witness :
  ∃ gg' b0,
    FixedSizeLog.New (MaxLogLines Examples.cfg) = Some b0 ∧
    Guardian.run Examples.cfg Examples.killOk Examples.workerRunning
      (Guardian.OpAppendToLog "worker" <$> ["a"; "b"; "c"; "d"])
    = Some (gg',
            mjoin ((λ line, (λ conn, EvWriteMessage conn line)
                              <$> subscribers Examples.workerRunning "worker")
                     <$> ["a"; "b"; "c"; "d"])) ∧
    Guardian.serviceLogs gg' !! "worker"
    = Some (FixedSizeLog.AppendAll
              (default b0 (Guardian.serviceLogs Examples.workerRunning
                             !! "worker"))
              ["a"; "b"; "c"; "d"]) ∧
    (Guardian.serviceLogs Examples.workerRunning !! "worker" = None →
       FixedSizeLog.Snapshot <$> Guardian.serviceLogs gg' !! "worker"
       = Some (lastLines (Z.to_nat (MaxLogLines Examples.cfg))
                 ["a"; "b"; "c"; "d"])) ∧
    (∀ s, s ≠ "worker" →
       Guardian.serviceLogs gg' !! s
       = Guardian.serviceLogs Examples.workerRunning !! s) ∧
    Guardian.services gg' = Guardian.services Examples.workerRunning ∧
    Guardian.registeredServices gg'
    = Guardian.registeredServices Examples.workerRunning ∧
    Guardian.serviceWebSockets gg'
    = Guardian.serviceWebSockets Examples.workerRunning.
Proof.
  refine (AppendToLog_stream Examples.cfg Examples.killOk
            Examples.workerRunning "worker" "a" ["b"; "c"; "d"] _).
  reflexivity.
Defined.

Example AppendToLog_four_into_three :
  (Guardian.run Examples.cfg Examples.killOk Examples.workerRunning
     (Guardian.OpAppendToLog "worker" <$> ["a"; "b"; "c"; "d"])
   ≫= λ r, FixedSizeLog.Snapshot <$> Guardian.serviceLogs r.1 !! "worker")
  = Some ["b"; "c"; "d"].
Proof. vm_compute. reflexivity. Qed.

(** ** The bulk stop of the earlier snapshot *)

Lemma Part000_stopAllLoop_outcomes (kill : Z → option string)
    (gg : Part000.GladiusGuardian) (order : list string) :
  (∀ n c, Part000.service gg n = Some c → is_Some (exec.Process c)) →
  ∀ result,
  ∃ evs,
    Part000.stopAllLoop kill gg order result
    = Some (result ++ mjoin (Part000.stopAllEntries kill gg <$> order), evs) ∧
    kills evs
    = omap (λ n, Part000.service gg n ≫= λ c, os.Pid <$> exec.Process c) order.
Proof.
  intros Hok. induction order as [|n rest IH]; intros result.
  - exists []. simpl. by rewrite app_nil_r.
  - cbn [Part000.stopAllLoop fmap list_fmap mjoin list_join omap list_omap].
    unfold Part000.stopAllEntries at 1.
    destruct (Part000.service gg n) as [c|] eqn:Hc.
    + destruct (Hok n c Hc) as [proc Hproc]. rewrite Hproc.
      cbn [mbind option_bind fmap option_fmap option_map].
      edestruct IH as (evs & -> & Hk). cbn [mbind option_bind].
      eexists. split.
      * f_equal. f_equal. by rewrite <- !app_assoc.
      * rewrite kills_app, Hk, Hproc. done.
    + cbn [mbind option_bind].
      edestruct IH as (evs & -> & Hk). cbn [mbind option_bind].
      eexists. split.
      * f_equal. f_equal. by rewrite <- !app_assoc.
      * by rewrite kills_app, Hk.
Qed.

(** X12: [StopAll] of the earlier snapshot, on a guardian whose records
    were all started: it sends one kill to every recorded process and
    aggregates, for every service in the table, a "service not running"
    entry, preceded for a recorded process by an entry for its kill,
    whether the kill went through or not. So the result is nil only when
    the table is empty. *)
Theorem Part000_StopAll_outcomes (kill : Z → option string)
    (gg : Part000.GladiusGuardian) (order : list string) :
  (∀ n c, Part000.service gg n = Some c → is_Some (exec.Process c)) →
  ∃ err evs,
    Part000.StopAll kill gg order = Some (err, evs) ∧
    aggregated err = mjoin (Part000.stopAllEntries kill gg <$> order) ∧
    (∀ n, n ∈ order → "service not running: " +:+ n ∈ aggregated err) ∧
    (err = None ↔ order = []) ∧
    kills evs
    = omap (λ n, Part000.service gg n ≫= λ c, os.Pid <$> exec.Process c) order.
Proof.
  intros Hok. unfold Part000.StopAll.
  destruct (Part000_stopAllLoop_outcomes kill gg order Hok [])
    as (evs & -> & Hk).
  cbn [app].
  set (l := mjoin (Part000.stopAllEntries kill gg <$> order)).
  assert (∀ n, n ∈ order → "service not running: " +:+ n ∈ l) as Hin.
  { intros n Hn. unfold l. apply list_elem_of_join.
    exists (Part000.stopAllEntries kill gg n). split.
    - unfold Part000.stopAllEntries.
      destruct (Part000.service gg n); [right; left|left].
    - apply list_elem_of_fmap. by exists n. }
  assert (l = [] ↔ order = []) as Hnil.
  { split.
    - intros E. destruct order as [|n rest]; [done|].
      specialize (Hin n ltac:(left)). rewrite E in Hin.
      by apply elem_of_nil in Hin.
    - by intros ->. }
  assert (∃ evs', (match ErrorOrNil l with
                   | Some _ =>
                       Some (ErrorOrNil l,
                             evs ++ [EvLogError "warning"
                                       "Error stoping one or more service"
                                       (multiError l)])
                   | None => Some (ErrorOrNil l, evs)
                   end) = Some (ErrorOrNil l, evs') ∧ kills evs' = kills evs)
    as (evs' & -> & Hk').
  { destruct (ErrorOrNil l); eexists; (split; [reflexivity|]); [|done].
    rewrite kills_app. simpl. by rewrite app_nil_r. }
  exists (ErrorOrNil l), evs'. rewrite aggregated_ErrorOrNil, Hk', Hk.
  split; [done|]. split; [done|]. split; [done|]. split; [|done].
  by rewrite ErrorOrNil_None.
Qed.

Lemma Part000_StopAll_outcomes_witness :
  ∃ err evs,
    Part000.StopAll Examples.killOk (erase Examples.workerRunning) ["worker"]
    = Some (err, evs) ∧
    aggregated err
    = mjoin (Part000.stopAllEntries Examples.killOk
               (erase Examples.workerRunning) <$> ["worker"]) ∧
    (∀ n, n ∈ ["worker"] → "service not running: " +:+ n ∈ aggregated err) ∧
    (err = None ↔ ["worker"] = []) ∧
    kills evs
    = omap (λ n, Part000.service (erase Examples.workerRunning) n
                 ≫= λ c, os.Pid <$> exec.Process c) ["worker"].
Proof.
  apply (Part000_StopAll_outcomes Examples.killOk
           (erase Examples.workerRunning) ["worker"]).
  exact (λ n c H, proj1 (examples_running_ok n c H)).
Defined.

(** ** The timeout *)

(** X13: the timeout in force is the one set last. After [SetTimeout]
    with a duration a start of a registered service that is not running,
    whose child stays alive, sleeps exactly that duration, whatever was set
    before; after [SetTimeout] with nil such a start is refused with the
    configuration error and nothing is spawned, even if a timeout had been
    set earlier. *)
Theorem SetTimeout_last_wins (cfg : Config) (gg : Guardian.GladiusGuardian)
    (name : string) (env order : list string) (o : string → SpawnOracle)
    (ss : serviceSettings.t) (d pid : Z) :
  isAll name = false →
  Guardian.registeredServices gg !! name = Some ss →
  Guardian.service gg name = None →
  stdoutPipe (o name) = None → stderrPipe (o name) = None →
  start (o name) = inr pid → graceFate (o name) = None →
  (∃ gg' evs,
     Guardian.StartService cfg (Guardian.SetTimeout gg (Some d)) name env
       order o = Some (None, gg', evs) ∧
     sleeps evs = [d] ∧
     Guardian.runningPid gg' name = Some pid) ∧
  Guardian.StartService cfg (Guardian.SetTimeout gg None) name env order o
  = Some (Some (errorString
                  "spawn timeout not set, please set it before a process is spawned"),
          Guardian.SetTimeout gg None, []).
Proof.
  intros Hall Hss Hsvc Hout Herr Hstart Hfate. split.
  - destruct (startServiceInternal_running_child cfg
                (Guardian.SetTimeout gg (Some d)) name env (o name) ss d pid
                Hss Hsvc eq_refl Hout Herr Hstart Hfate) as (evs & H1 & Hsl).
    unfold Guardian.StartService. rewrite Hall, H1.
    eexists. exists evs. split; [done|]. split; [done|].
    unfold Guardian.runningPid, Guardian.service. simpl.
    by rewrite lookup_insert_eq.
  - unfold Guardian.StartService, Guardian.startServiceInternal. rewrite Hall.
    change (Guardian.registeredServices (Guardian.SetTimeout gg None))
      with (Guardian.registeredServices gg).
    change (Guardian.service (Guardian.SetTimeout gg None) name)
      with (Guardian.service gg name).
    by rewrite Hss, Hsvc.
Qed.

Lemma SetTimeout_last_wins_witness :
  (∃ gg' evs,
     Guardian.StartService Examples.cfg
       (Guardian.SetTimeout Examples.workerConfigured (Some 7)) "worker" []
       [] (λ _, Examples.stillRunning 42) = Some (None, gg', evs) ∧
     sleeps evs = [7] ∧
     Guardian.runningPid gg' "worker" = Some 42) ∧
  Guardian.StartService Examples.cfg
    (Guardian.SetTimeout Examples.workerConfigured None) "worker" [] []
    (λ _, Examples.stillRunning 42)
  = Some (Some (errorString
                  "spawn timeout not set, please set it before a process is spawned"),
          Guardian.SetTimeout Examples.workerConfigured None, []).
Proof.
  refine (SetTimeout_last_wins Examples.cfg Examples.workerConfigured "worker"
            [] [] (λ _, Examples.stillRunning 42)
            {| serviceSettings.env := ["A=1"];
               serviceSettings.execName := "/usr/bin/worker" |}
            7 42 eq_refl _ _ eq_refl eq_refl eq_refl eq_refl);
    vm_compute; reflexivity.
Defined.

(** ** Bulk operations on an empty registry *)

(** X15: with no service registered, a bulk stop and a bulk start return
    nil, make no call to the outside and leave the guardian as it is,
    whether a timeout is set or not. *)
Theorem bulk_operations_on_empty_registry (cfg : Config)
    (kill : Z → option string) (gg : Guardian.GladiusGuardian)
    (name : string) (env order : list string) (o : string → SpawnOracle) :
  isAll name = true →
  Guardian.registeredServices gg = ∅ →
  range_order (Guardian.registeredServices gg) order →
  Guardian.StopService kill gg name order = Some (None, []) ∧
  Guardian.StartService cfg gg name env order o = Some (None, gg, []).
Proof.
  intros Hall Hempty Hord. unfold range_order in Hord.
  rewrite Hempty, map_to_list_empty in Hord. simpl in Hord.
  apply Permutation_nil_r in Hord as ->.
  unfold Guardian.StopService, Guardian.StartService. by rewrite Hall.
Qed.

Lemma bulk_operations_on_empty_registry_witness :
  Guardian.StopService Examples.killOk Guardian.New "all" [] = Some (None, []) ∧
  Guardian.StartService Examples.cfg Guardian.New "all" [] []
    (λ _, Examples.stillRunning 42)
  = Some (None, Guardian.New, []).
Proof.
  refine (bulk_operations_on_empty_registry Examples.cfg Examples.killOk
            Guardian.New "all" [] [] (λ _, Examples.stillRunning 42) eq_refl
            eq_refl _).
  vm_compute. reflexivity.
Defined.
